(** * Postcode clustering: a shallow embedding of [0_Create_Clusters.py]
      and of the cluster queue query of [1_Places_scraper.py].

    The program keeps its state in the relational table [postcodes] and
    drives it with SQL statements sent through [utils.execute_query].
    A table is modelled as the list of its rows in stored order; each
    statement is a function on tables, and the rows a statement returns
    are what [execute_query] hands back.  SQL leaves three row orders of
    the clustering run to the engine: the numbering of
    [ROW_NUMBER() OVER ()], the row kept by [DISTINCT ON] among equal
    sort keys, and the join row used by [UPDATE ... FROM].
    [generate_clusters] is the run that follows the stored order of the
    rows in all three; [generate_clusters_on] is the run under any
    [Engine], which gives the three orders.  The statements are put
    together once more in [generate_clusters_call], the call with the
    cursor's [fetchall] after each statement.

    Numbers: [id] and [cluster_id] are integers; [latitude] and
    [longitude] are the fixed-point columns DECIMAL(10,8) / DECIMAL(11,8),
    kept as the integer number of 1e-8 degrees; timestamps are integers
    (microseconds).  The trigonometry of the join condition is read over
    the real numbers; the engine evaluates it in double precision, and
    nothing is claimed here about its rounding. *)

From Stdlib Require Import List ZArith Bool String Lia Permutation.
From Stdlib Require Import Reals Lra.
From Stdlib Require Import DecimalString.
Import ListNotations.

Local Open Scope Z_scope.

(** ** The [postcodes] table *)

(** One row.  [extra] stands for the columns no statement below reads or
    writes (city, region, country, created_at, ...). *)
Record Postcode := mkPostcode {
  id : Z;
  postcode : option string;
  latitude : option Z;
  longitude : option Z;
  is_cluster_center : option bool;
  cluster_id : option Z;
  cluster_postcodes : option (list (option Z));
  last_scraped : option Z;
  last_updated : option Z;
  scrape_status : option string;
  error_message : option string;
  extra : list string
}.

Definition Table := list Postcode.

(** SQL truth of [x = TRUE] for a nullable boolean: NULL is not true. *)
Definition is_true (b : option bool) : bool :=
  match b with Some true => true | _ => false end.

Definition is_not_null {A} (x : option A) : bool :=
  match x with Some _ => true | None => false end.

(** ** The reset statement (generate_clusters, first [execute_query]) *)

(** WHERE is_cluster_center = TRUE OR cluster_id IS NOT NULL *)
Definition reset_where (p : Postcode) : bool :=
  is_true (is_cluster_center p) || is_not_null (cluster_id p).

(** SET is_cluster_center = FALSE, cluster_id = NULL,
        cluster_postcodes = NULL, scrape_status = 'pending',
        error_message = NULL *)
Definition reset_set (p : Postcode) : Postcode :=
  {| id := id p;
     postcode := postcode p;
     latitude := latitude p;
     longitude := longitude p;
     is_cluster_center := Some false;
     cluster_id := None;
     cluster_postcodes := None;
     last_scraped := last_scraped p;
     last_updated := last_updated p;
     scrape_status := Some "pending"%string;
     error_message := None;
     extra := extra p |}.

Definition reset_row (p : Postcode) : Postcode :=
  if reset_where p then reset_set p else p.

Definition reset_clusters (t : Table) : Table := map reset_row t.

(** ** The clustering statement (generate_clusters, second [execute_query]) *)

(** A row of the CTE [numbered_locations]:
    SELECT id, postcode, latitude, longitude FROM postcodes
    WHERE latitude IS NOT NULL AND longitude IS NOT NULL *)
Record Location := mkLocation {
  l_id : Z;
  l_postcode : option string;
  l_latitude : Z;
  l_longitude : Z
}.

Definition location_of (p : Postcode) : list Location :=
  match latitude p, longitude p with
  | Some la, Some lo => [mkLocation (id p) (postcode p) la lo]
  | _, _ => []
  end.

Definition numbered_locations (t : Table) : list Location :=
  flat_map location_of t.

Definition Location_eq_dec (a b : Location) : {a = b} + {a <> b}.
Proof.
  decide equality; try apply Z.eq_dec.
  decide equality. apply string_dec.
Defined.

(** A row of the CTE [potential_clusters]. *)
Record PotentialCluster := mkPotentialCluster {
  center_id : Z;
  center_postcode : option string;
  pc_latitude : Z;
  pc_longitude : Z;
  covered_postcodes : list (option Z);
  coverage_count : Z
}.

(** A row of the CTE [optimized_clusters]: [pc.*] and [cluster_id]. *)
Record OptimizedCluster := mkOptimizedCluster {
  oc_pc : PotentialCluster;
  oc_cluster_id : Z
}.

(** DISTINCT ... ORDER BY on integers: ascending, duplicates dropped. *)
Fixpoint insert_distinct (x : Z) (l : list Z) : list Z :=
  match l with
  | [] => [x]
  | y :: l' =>
      match x ?= y with
      | Lt => x :: l
      | Eq => l
      | Gt => y :: insert_distinct x l'
      end
  end.

Definition sort_distinct (l : list Z) : list Z :=
  fold_right insert_distinct [] l.

(** ARRAY_AGG(DISTINCT b.id ORDER BY b.id) over the rows a LEFT JOIN
    yields for one [a]: when no [b] satisfies the join condition the
    single joined row has [b.id] NULL and the array is {NULL}. *)
Definition array_agg_distinct (ids : list Z) : list (option Z) :=
  match ids with
  | [] => [None]
  | _ => map Some (sort_distinct ids)
  end.

(** COUNT(DISTINCT b.id): NULL is not counted. *)
Definition count_distinct (ids : list Z) : Z :=
  Z.of_nat (List.length (sort_distinct ids)).

(** Comparison of integer arrays as the engine orders them: element by
    element, a NULL element after every non-NULL one, a proper prefix
    first. *)
Definition elem_compare (x y : option Z) : comparison :=
  match x, y with
  | Some a, Some b => a ?= b
  | Some _, None => Lt
  | None, Some _ => Gt
  | None, None => Eq
  end.

Fixpoint array_compare (u v : list (option Z)) : comparison :=
  match u, v with
  | [], [] => Eq
  | [], _ :: _ => Lt
  | _ :: _, [] => Gt
  | x :: u', y :: v' =>
      match elem_compare x y with
      | Eq => array_compare u' v'
      | c => c
      end
  end.

Definition array_eq_dec (u v : list (option Z)) : {u = v} + {u <> v}.
Proof. repeat decide equality. Defined.

Definition array_eqb (u v : list (option Z)) : bool :=
  if array_eq_dec u v then true else false.

(** ORDER BY pc.covered_postcodes, pc.coverage_count DESC *)
Definition order_leb (x y : PotentialCluster) : bool :=
  match array_compare (covered_postcodes x) (covered_postcodes y) with
  | Lt => true
  | Gt => false
  | Eq => coverage_count y <=? coverage_count x
  end.

Section Sorting.
Context {A : Type}.
Variable leb : A -> A -> bool.

Fixpoint insert_by (x : A) (l : list A) : list A :=
  match l with
  | [] => [x]
  | h :: l' => if leb x h then x :: l else h :: insert_by x l'
  end.

(** A stable sort: rows with equal keys keep their relative order. *)
Definition sort_by (l : list A) : list A := fold_right insert_by [] l.
End Sorting.

Section DistinctOn.
Context {A : Type}.
Variable key : A -> list (option Z).

(** DISTINCT ON (key): the first row of every set of rows with equal
    key; [seen] holds the keys already emitted. *)
Fixpoint distinct_on_from (seen : list (list (option Z))) (l : list A) : list A :=
  match l with
  | [] => []
  | x :: l' =>
      if existsb (array_eqb (key x)) seen
      then distinct_on_from seen l'
      else x :: distinct_on_from (key x :: seen) l'
  end.

Definition distinct_on (l : list A) : list A := distinct_on_from [] l.
End DistinctOn.

(** ROW_NUMBER() OVER (): rows numbered from [n] in the order they come. *)
Fixpoint row_number_from (n : Z) (l : list PotentialCluster) : list OptimizedCluster :=
  match l with
  | [] => []
  | pc :: l' => mkOptimizedCluster pc n :: row_number_from (n + 1) l'
  end.

Definition oc_covered (oc : OptimizedCluster) : list (option Z) :=
  covered_postcodes (oc_pc oc).

Definition oc_center (oc : OptimizedCluster) : Z := center_id (oc_pc oc).

Definition cluster_leb (x y : OptimizedCluster) : bool :=
  order_leb (oc_pc x) (oc_pc y).

(** [p.id = ANY(arr)]: true only when some element equals [x]. *)
Definition any_eq (x : Z) (arr : option (list (option Z))) : bool :=
  match arr with
  | Some l => existsb (fun e => match e with Some y => x =? y | None => false end) l
  | None => false
  end.

Section Clustering.
(** The join condition of [potential_clusters], "b lies within the
    radius of a"; its Haversine instance is [within_radius] below. *)
Variable within : Location -> Location -> bool.

(** The ids of the rows [b] joined to [a]. *)
Definition joined_ids (locs : list Location) (a : Location) : list Z :=
  map l_id (filter (within a) locs).

(** One group of GROUP BY a.id, a.postcode, a.latitude, a.longitude. *)
Definition candidate (locs : list Location) (a : Location) : PotentialCluster :=
  {| center_id := l_id a;
     center_postcode := l_postcode a;
     pc_latitude := l_latitude a;
     pc_longitude := l_longitude a;
     covered_postcodes := array_agg_distinct (joined_ids locs a);
     coverage_count := count_distinct (joined_ids locs a) |}.

(** The groups, here in stored order; [potential_clusters_on] has them
    in the order an engine gives. *)
Definition potential_clusters (t : Table) : list PotentialCluster :=
  let locs := numbered_locations t in
  map (candidate locs) (nodup Location_eq_dec locs).

(** The window function is evaluated before DISTINCT ON and ORDER BY. *)
Definition numbered_clusters (t : Table) : list OptimizedCluster :=
  row_number_from 1 (potential_clusters t).

(** DISTINCT ON keeps the first row of each array after ORDER BY; here
    rows with equal sort keys keep the order of their numbers, and
    [optimized_clusters_on] leaves their order to the engine. *)
Definition optimized_clusters (t : Table) : list OptimizedCluster :=
  distinct_on oc_covered
    (sort_by cluster_leb (numbered_clusters t)).

(** UPDATE postcodes p SET ... FROM optimized_clusters oc
    WHERE p.id = oc.center_id *)
Definition centers_where (p : Postcode) (oc : OptimizedCluster) : bool :=
  id p =? oc_center oc.

Definition centers_set (now : Z) (p : Postcode) (oc : OptimizedCluster) : Postcode :=
  {| id := id p;
     postcode := postcode p;
     latitude := latitude p;
     longitude := longitude p;
     is_cluster_center := Some true;
     cluster_id := Some (oc_cluster_id oc);
     cluster_postcodes := Some (oc_covered oc);
     last_scraped := last_scraped p;
     last_updated := Some now;
     scrape_status := Some "pending"%string;
     error_message := error_message p;
     extra := extra p |}.

Definition centers_row (now : Z) (ocs : list OptimizedCluster) (p : Postcode) : Postcode :=
  match find (centers_where p) ocs with
  | Some oc => centers_set now p oc
  | None => p
  end.

(** RETURNING p.id: one id per updated row. *)
Definition centers_returning (ocs : list OptimizedCluster) (t : Table) : list Z :=
  map id (filter (fun p => existsb (centers_where p) ocs) t).

(** UPDATE postcodes p SET cluster_id = c.cluster_id, last_updated = NOW()
    FROM postcodes c
    WHERE c.is_cluster_center = TRUE AND p.id = ANY(c.cluster_postcodes)
      AND p.id != c.id *)
Definition members_where (p c : Postcode) : bool :=
  is_true (is_cluster_center c)
  && any_eq (id p) (cluster_postcodes c)
  && negb (id p =? id c).

Definition members_set (now : Z) (p c : Postcode) : Postcode :=
  {| id := id p;
     postcode := postcode p;
     latitude := latitude p;
     longitude := longitude p;
     is_cluster_center := is_cluster_center p;
     cluster_id := cluster_id c;
     cluster_postcodes := cluster_postcodes p;
     last_scraped := last_scraped p;
     last_updated := Some now;
     scrape_status := scrape_status p;
     error_message := error_message p;
     extra := extra p |}.

(** Both sides of the self-join read the table as it stands when the
    statement starts ([snapshot]).  When several rows [c] satisfy the
    WHERE for one [p], one of them is used: here the first in stored
    order, in [members_row_on] the first in the engine's order. *)
Definition members_row (now : Z) (snapshot : Table) (p : Postcode) : Postcode :=
  match find (members_where p) snapshot with
  | Some c => members_set now p c
  | None => p
  end.

(** generate_clusters: the three statements in turn; [now1] and [now2]
    are NOW() of the second and the third statement.  The result is the
    final table and [len(clusters_added)]. *)
Definition generate_clusters_with (now1 now2 : Z) (t : Table) : Table * Z :=
  let t0 := reset_clusters t in
  let ocs := optimized_clusters t0 in
  let clusters_added := centers_returning ocs t0 in
  let t1 := map (centers_row now1 ocs) t0 in
  let t2 := map (members_row now2 t1) t1 in
  (t2, Z.of_nat (List.length clusters_added)).
End Clustering.

(** ** The Haversine join condition *)

Local Open Scope R_scope.

(** A DECIMAL(_, 8) value as a number of degrees. *)
Definition degrees (d : Z) : R := IZR d / 100000000.

Definition radians (x : R) : R := x * PI / 180.

(** 2 * 6371 * asin(sqrt(sin(radians(b.latitude - a.latitude)/2)^2 +
      cos(radians(a.latitude)) * cos(radians(b.latitude)) *
      sin(radians(b.longitude - a.longitude)/2)^2)) *)
Definition haversine_km (a b : Location) : R :=
  2 * 6371 * asin (sqrt (
    sin (radians (degrees (l_latitude b - l_latitude a)) / 2) ^ 2 +
    cos (radians (degrees (l_latitude a))) * cos (radians (degrees (l_latitude b))) *
    sin (radians (degrees (l_longitude b - l_longitude a)) / 2) ^ 2)).

(** ... <= %s, with [radius_km] for the parameter. *)
Definition within_radius (radius_km : R) (a b : Location) : bool :=
  if Rle_dec (haversine_km a b) radius_km then true else false.

(** The outcome of generate_clusters when each of its three
    execute_query calls returns: the final table and the value returned. *)
Definition generate_clusters (radius_km : R) (now1 now2 : Z) (t : Table) : Table * Z :=
  generate_clusters_with (within_radius radius_km) now1 now2 t.

Local Close Scope R_scope.

(** ** The row orders the engine chooses

    Three orders of the run are not fixed by its statements.
    [group_order]: the order in which the groups of [potential_clusters]
    reach ROW_NUMBER() OVER ().  [order_by]: the order ORDER BY leaves,
    free among rows with equal sort keys; candidates with one array
    always tie, their counts being the number of ids in the array.
    [join_order]: the order in which the last UPDATE meets the rows [c]
    joined to one target row [p]; the first of them that satisfies the
    WHERE is the one its SET reads.  The engine reads the rows in their
    physical order, which an UPDATE changes, so these orders can differ
    between two runs on the same points.  (An engine also leaves the
    rows of [order_by] sorted; nothing proved below needs that.) *)
Record Engine := mkEngine {
  group_order : list Location -> list Location;
  order_by : list OptimizedCluster -> list OptimizedCluster;
  join_order : Postcode -> Table -> Table
}.

(** What every engine keeps to: the groups are the distinct locations,
    and the other two orders are rearrangements of the rows given. *)
Definition admissible (e : Engine) : Prop :=
  (forall locs, Permutation (group_order e locs) (nodup Location_eq_dec locs)) /\
  (forall l, Permutation (order_by e l) l) /\
  (forall p s, Permutation (join_order e p s) s).

Section EngineRun.
Variable e : Engine.
Variable within : Location -> Location -> bool.

Definition potential_clusters_on (t : Table) : list PotentialCluster :=
  let locs := numbered_locations t in
  map (candidate within locs) (group_order e locs).

Definition numbered_clusters_on (t : Table) : list OptimizedCluster :=
  row_number_from 1 (potential_clusters_on t).

Definition optimized_clusters_on (t : Table) : list OptimizedCluster :=
  distinct_on oc_covered (order_by e (numbered_clusters_on t)).

Definition members_row_on (now : Z) (snapshot : Table) (p : Postcode) : Postcode :=
  match find (members_where p) (join_order e p snapshot) with
  | Some c => members_set now p c
  | None => p
  end.

Definition generate_clusters_on_with (now1 now2 : Z) (t : Table) : Table * Z :=
  let t0 := reset_clusters t in
  let ocs := optimized_clusters_on t0 in
  let clusters_added := centers_returning ocs t0 in
  let t1 := map (centers_row now1 ocs) t0 in
  let t2 := map (members_row_on now2 t1) t1 in
  (t2, Z.of_nat (List.length clusters_added)).
End EngineRun.

Definition generate_clusters_on (e : Engine) (radius_km : R) (now1 now2 : Z)
           (t : Table) : Table * Z :=
  generate_clusters_on_with e (within_radius radius_km) now1 now2 t.

(** The engine [generate_clusters] follows: stored order throughout, and
    a sort that keeps the order of rows with equal keys. *)
Definition stored_order : Engine :=
  {| group_order := nodup Location_eq_dec;
     order_by := sort_by cluster_leb;
     join_order := fun _ s => s |}.

(** Groups in the order of their key, first a.id, as an aggregate over
    sorted input emits them; the rest as [stored_order]. *)
Definition by_id : Engine :=
  {| group_order := fun locs =>
       sort_by (fun a b => l_id a <=? l_id b) (nodup Location_eq_dec locs);
     order_by := sort_by cluster_leb;
     join_order := fun _ s => s |}.


(** ** generate_clusters as a call through utils.execute_query

    execute_query runs its statement, commits, and returns
    [cur.fetchall()]; an exception is logged and raised again, by
    execute_query and then by generate_clusters.  The statement is
    committed before [fetchall] is called, so its effect stays.  A
    statement with RETURNING (or a SELECT) produces a result set; the
    reset and the last UPDATE produce none, and what [fetchall] does then
    is the driver's: it is the parameter [no_result_set]. *)
Inductive outcome (A : Type) : Type :=
| Returned (x : A)
| Raised.

Arguments Returned {A} x.
Arguments Raised {A}.

Definition fetchall (no_result_set : outcome (list Z))
           (result_set : option (list Z)) : outcome (list Z) :=
  match result_set with
  | Some rows => Returned rows
  | None => no_result_set
  end.

Definition generate_clusters_call (no_result_set : outcome (list Z))
           (radius_km : R) (now1 now2 : Z) (t : Table) : Table * outcome Z :=
  let t0 := reset_clusters t in
  match fetchall no_result_set None with
  | Raised => (t0, Raised)
  | Returned _ =>
      let ocs := optimized_clusters (within_radius radius_km) t0 in
      let t1 := map (centers_row now1 ocs) t0 in
      match fetchall no_result_set (Some (centers_returning ocs t0)) with
      | Raised => (t1, Raised)
      | Returned clusters_added =>
          let t2 := map (members_row now2 t1) t1 in
          match fetchall no_result_set None with
          | Raised => (t2, Raised)
          | Returned _ => (t2, Returned (Z.of_nat (List.length clusters_added)))
          end
      end
  end.

(** psycopg2: fetchall raises ProgrammingError ("no results to fetch")
    when the last statement produced no result set. *)
Definition psycopg2_no_result_set : outcome (list Z) := Raised.

(** ** The cluster queue of the scraper (1_Places_scraper.py) *)

Module Scraper.

(** A row of [postcode_clusters], with the columns the query names. *)
Record Cluster := mkCluster {
  id : Z;
  center_postcode_id : option Z;
  center_postcode : option string;
  latitude : option Z;
  longitude : option Z;
  covered_postcodes : option (list (option Z));
  last_scraped : option Z
}.

(** INTERVAL '7 days' in microseconds. *)
Definition seven_days : Z := 7 * 86400 * 1000000.

(** WHERE last_scraped IS NULL OR last_scraped < NOW() - INTERVAL '7 days' *)
Definition needs_scraping (now : Z) (c : Cluster) : bool :=
  match last_scraped c with
  | None => true
  | Some ts => ts <? now - seven_days
  end.

(** ORDER BY last_scraped NULLS FIRST *)
Definition nulls_first_leb (x y : option Z) : bool :=
  match x, y with
  | None, _ => true
  | Some _, None => false
  | Some a, Some b => a <=? b
  end.

(** get_next_cluster: the rows handed back, at most one (LIMIT 1). *)
Definition get_next_cluster (now : Z) (clusters : list Cluster) : list Cluster :=
  firstn 1
    (sort_by (fun x y => nulls_first_leb (last_scraped x) (last_scraped y))
       (filter (needs_scraping now) clusters)).

End Scraper.

(** ** The task log of utils.py

    The table [tasks] with its SERIAL key.  [executes] says whether the
    engine carries out the statement: get_db_connection hands out a
    connection and the engine accepts the values (a task_type within
    VARCHAR(50), a status within VARCHAR(20), no NUL character).  When it
    does not, execute_query raises, the transaction is rolled back and
    the table is as before.  [new_id] is the value the sequence behind
    task_id hands out for the inserted row. *)

Module Tasks.

Record Task := mkTask {
  task_id : Z;
  task_type : option string;
  payload : option string;
  status : option string;
  attempts : Z;
  error_message : option string;
  created_at : option Z;
  updated_at : option Z;
  started_at : option Z;
  completed_at : option Z
}.

(** The rows of the table. *)
Record Db := mkDb {
  rows : list Task
}.

(** A payload dict, as its items; the empty dict is falsy. *)
Definition Payload := list (string * string).

Definition payload_truthy (payload : option Payload) : bool :=
  match payload with
  | Some (_ :: _) => true
  | _ => false
  end.

Section Insert.
(** json.dumps: the text, or an exception for a value it cannot
    serialise. *)
Variable json_dumps : Payload -> outcome string.

(** json.dumps(payload) if payload else None *)
Definition payload_param (payload : option Payload) : outcome (option string) :=
  match payload with
  | Some (item :: items) =>
      match json_dumps (item :: items) with
      | Returned text => Returned (Some text)
      | Raised => Raised
      end
  | _ => Returned None
  end.

(** INSERT INTO tasks (task_type, payload, status)
    VALUES (%s, %s, 'queued') RETURNING task_id;
    the other columns take their defaults. *)
Definition insert_row (now new_id : Z) (task_type : string)
           (param : option string) : Task :=
  {| task_id := new_id;
     task_type := Some task_type;
     payload := param;
     status := Some "queued"%string;
     attempts := 0;
     error_message := None;
     created_at := Some now;
     updated_at := Some now;
     started_at := None;
     completed_at := None |}.

(** insert_task: [result[0][0] if result else None], and None when
    json.dumps or execute_query raises; the params are put together
    before execute_query is called. *)
Definition insert_task (executes : bool) (now new_id : Z) (task_type : string)
           (payload : option Payload) (db : Db) : Db * option Z :=
  match payload_param payload with
  | Raised => (db, None)
  | Returned param =>
      if executes
      then ({| rows := rows db ++ [insert_row now new_id task_type param] |},
            Some new_id)
      else (db, None)
  end.
End Insert.

(** %s IN ('completed', 'failed') *)
Definition terminal (status : string) : bool :=
  String.eqb status "completed" || String.eqb status "failed".

(** UPDATE tasks SET status = %s, error_message = %s, updated_at = NOW(),
      completed_at = CASE WHEN %s IN ('completed', 'failed')
                     THEN NOW() ELSE completed_at END
    WHERE task_id = %s *)
Definition update_row (now : Z) (id : Z) (new_status : string)
           (new_error : option string) (r : Task) : Task :=
  if task_id r =? id
  then {| task_id := task_id r;
          task_type := task_type r;
          payload := payload r;
          status := Some new_status;
          attempts := attempts r;
          error_message := new_error;
          created_at := created_at r;
          updated_at := Some now;
          started_at := started_at r;
          completed_at := if terminal new_status then Some now
                          else completed_at r |}
  else r.

(** update_task_status: True when execute_query returns, False when it
    raises.  The UPDATE is committed before the cursor is asked for
    rows, and it has no result set. *)
Definition update_task_status (no_result_set : outcome (list Z))
           (executes : bool) (now : Z) (id : Z) (new_status : string)
           (new_error : option string) (db : Db) : Db * bool :=
  if executes
  then ({| rows := map (update_row now id new_status new_error) (rows db) |},
        match fetchall no_result_set None with
        | Returned _ => true
        | Raised => false
        end)
  else (db, false).

(** The key is unique. *)
Definition well_formed (db : Db) : Prop :=
  NoDup (map task_id (rows db)).

Definition lookup (id : Z) (db : Db) : option Task :=
  find (fun r => task_id r =? id) (rows db).

End Tasks.

(** A run of update_task_status calls, each with its clock, id, status
    and error message, every one carried out by the engine. *)
Definition task_updates (no_result_set : outcome (list Z))
           (calls : list (Z * Z * string * option string)) (db : Tasks.Db)
  : Tasks.Db :=
  fold_left
    (fun d c =>
       match c with
       | (now, id, new_status, new_error) =>
           fst (Tasks.update_task_status no_result_set true now id
                                         new_status new_error d)
       end)
    calls db.

(** A task log with one finished and one queued task. *)
Definition sample_tasks : Tasks.Db :=
  {| Tasks.rows :=
       [ Tasks.mkTask 1 (Some "scrape_area"%string) None
           (Some "completed"%string) 0 None (Some 5) (Some 9) None (Some 9);
         Tasks.mkTask 2 (Some "scrape_area"%string) None
           (Some "queued"%string) 0 (Some "earlier"%string) (Some 6) (Some 6)
           None None ] |}.

(** A payload of one item, and a json.dumps that serialises it. *)
Definition sample_payload : Tasks.Payload := [("cluster_id", "4")]%string.

Definition sample_dumps (payload : Tasks.Payload) : outcome string :=
  Returned "{cluster_id: 4}"%string.

(** ** Saving a place (save_place_to_db of 1_Places_scraper.py)

    The place is the dict decoded from the details response; a field is
    [None] when its key is missing, and a present value has the type the
    code uses it at.  [executes] says whether the engine carries out the
    INSERT (connection, constraints); [new_id] is the value the sequence
    behind listing_id hands out for the proposed row. *)

Module Listings.

(** utils.GOOGLE_TO_DIRECTORY_CATEGORY *)
Definition GOOGLE_TO_DIRECTORY_CATEGORY : list (string * (string * Z)) :=
  [ ("Bangle Shop", ("Jewellery Gifts", 106));
    ("Bead Store", ("Handmade Jewellery", 102));
    ("Diamond Buyer", ("Diamond Jewellery", 93));
    ("Diamond Dealer", ("Diamond Jewellery", 93));
    ("Gemologist", ("Jewellery Appraiser", 153));
    ("Goldsmith", ("Custom Rings", 94));
    ("Jeweler", ("Independent Jeweller", 99));
    ("Jewelry Appraiser", ("Jewellery Appraiser", 153));
    ("Jewelry Buyer", ("Pawnbroker", 108));
    ("Jewelry Designer", ("Designer Jewellery", 105));
    ("Jewelry Engraver", ("Jewellery Gifts", 106));
    ("Jewelry Equipment Supplier", ("Jewellery Manufacturers", 140));
    ("Jewelry Exporter", ("Jewellery Manufacturers", 140));
    ("Jewelry Manufacturer", ("Jewellery Manufacturers", 140));
    ("Jewelry Repair Service", ("Jewellery Repair", 152));
    ("Jewelry Store", ("Independent Jeweller", 99));
    ("Silversmith", ("Handmade Jewellery", 102));
    ("Watch Manufacturer", ("Watches", 96));
    ("Watch Repair Service", ("Jewellery Repair", 152));
    ("Watch Store", ("Watches", 96));
    ("Wholesale Jeweler", ("Jewellery Manufacturers", 140)) ]%string.

(** d[k], for a dict given by its items. *)
Fixpoint dict_get {V : Type} (k : string) (d : list (string * V)) : option V :=
  match d with
  | [] => None
  | (k', v) :: d' => if String.eqb k k' then Some v else dict_get k d'
  end.

(** for place_type in place_types:
        if place_type in GOOGLE_TO_DIRECTORY_CATEGORY:
            category_info = GOOGLE_TO_DIRECTORY_CATEGORY[place_type]; break *)
Fixpoint category_info (place_types : list string) : option (string * Z) :=
  match place_types with
  | [] => None
  | place_type :: rest =>
      match dict_get place_type GOOGLE_TO_DIRECTORY_CATEGORY with
      | Some info => Some info
      | None => category_info rest
      end
  end.

(** category_info[1] if category_info else None *)
Definition default_category (place_types : list string) : option Z :=
  match category_info place_types with
  | Some info => Some (snd info)
  | None => None
  end.

(** The decimal text of an integer, as an f-string prints it. *)
Definition format_int (n : Z) : string := NilZero.string_of_int (Z.to_int n).

(** f",{default_category}," if default_category else None; 0 is falsy. *)
Definition post_category (dc : option Z) : option string :=
  match dc with
  | Some n => if n =? 0 then None
              else Some ("," ++ format_int n ++ ",")%string
  | None => None
  end.

(** An entry of address_components. *)
Record Component := mkComponent {
  long_name : option string;
  types : option (list string)
}.

(** next((comp['long_name'] for comp in address_components
          if tag in comp['types']), ''): a missing key raises KeyError
    when the entry is reached. *)
Fixpoint first_component (tag : string) (comps : list Component) : outcome string :=
  match comps with
  | [] => Returned ""%string
  | comp :: rest =>
      match types comp with
      | None => Raised
      | Some ts =>
          if existsb (String.eqb tag) ts
          then match long_name comp with
               | Some n => Returned n
               | None => Raised
               end
          else first_component tag rest
      end
  end.

Definition bind {A B : Type} (x : outcome A) (f : A -> outcome B) : outcome B :=
  match x with
  | Returned a => f a
  | Raised => Raised
  end.

(** place_data[key] *)
Definition required {A : Type} (x : option A) : outcome A :=
  match x with
  | Some a => Returned a
  | None => Raised
  end.

(** place_data.get(key, default) *)
Definition get_default {A : Type} (x : option A) (default : A) : A :=
  match x with
  | Some a => a
  | None => default
  end.

Record PlaceData := mkPlaceData {
  place_id : option string;
  name : option string;
  formatted_address : option string;
  (** geometry.location.lat and .lng, in 1e-7 degrees as the columns keep
      them; [None] when a key on the way is missing *)
  location : option (Z * Z);
  website : option string;
  formatted_phone_number : option string;
  address_components : option (list Component);
  place_types : option (list string);
  (** whether the dict has keys besides these *)
  other_keys : bool
}.

(** A row of [listings]; [others] stands for the columns the INSERT does
    not name (post_content, blurb, wp_post_id, ...). *)
Record Listing := mkListing {
  listing_id : Z;
  google_place_id : option string;
  l_name : option string;
  address : option string;
  latitude : option Z;
  longitude : option Z;
  postcode_id : option Z;
  website_url : option string;
  phone : option string;
  post_title : option string;
  post_type : option string;
  street : option string;
  city : option string;
  region : option string;
  country : option string;
  zip : option string;
  l_post_category : option string;
  l_default_category : option Z;
  created_at : option Z;
  updated_at : option Z;
  others : list (option string)
}.

Section Save.
(** str.strip *)
Variable strip : string -> string.
(** The defaults of the columns the INSERT does not name. *)
Variable default_others : list (option string).

(** The proposed row, or the exception raised while it is put together:
    the address parts, the category, then the params tuple. *)
Definition proposed (now new_id : Z) (place_data : PlaceData) (postcode : Z)
  : outcome Listing :=
  let comps := get_default (address_components place_data) [] in
  bind (first_component "street_number" comps) (fun street_number =>
  bind (first_component "route" comps) (fun route =>
  bind (first_component "locality" comps) (fun city' =>
  bind (first_component "administrative_area_level_1" comps) (fun region' =>
  bind (first_component "country" comps) (fun country' =>
  bind (first_component "postal_code" comps) (fun postal_code =>
  let dc := default_category (get_default (place_types place_data) []) in
  bind (required (place_id place_data)) (fun pid =>
  bind (required (name place_data)) (fun nm =>
  bind (required (formatted_address place_data)) (fun addr =>
  bind (required (location place_data)) (fun loc =>
  Returned
    {| listing_id := new_id;
       google_place_id := Some pid;
       l_name := Some nm;
       address := Some addr;
       latitude := Some (fst loc);
       longitude := Some (snd loc);
       postcode_id := Some postcode;
       website_url := Some (get_default (website place_data) ""%string);
       phone := Some (get_default (formatted_phone_number place_data) ""%string);
       post_title := Some nm;
       post_type := Some "gd_place"%string;
       street := Some (strip (street_number ++ " " ++ route)%string);
       city := Some city';
       region := Some region';
       country := Some country';
       zip := Some postal_code;
       l_post_category := post_category dc;
       l_default_category := dc;
       created_at := Some now;
       updated_at := Some now;
       others := default_others |})))))))))).

(** ON CONFLICT (google_place_id): NULL conflicts with nothing. *)
Definition conflicts (new old : Listing) : bool :=
  match google_place_id new, google_place_id old with
  | Some g, Some g' => String.eqb g g'
  | _, _ => false
  end.

(** DO UPDATE SET name = EXCLUDED.name, ..., updated_at = NOW():
    listing_id, google_place_id, postcode_id, post_type, created_at and
    the unnamed columns are not in the SET list. *)
Definition do_update (new old : Listing) : Listing :=
  {| listing_id := listing_id old;
     google_place_id := google_place_id old;
     l_name := l_name new;
     address := address new;
     latitude := latitude new;
     longitude := longitude new;
     postcode_id := postcode_id old;
     website_url := website_url new;
     phone := phone new;
     post_title := post_title new;
     post_type := post_type old;
     street := street new;
     city := city new;
     region := region new;
     country := country new;
     zip := zip new;
     l_post_category := l_post_category new;
     l_default_category := l_default_category new;
     created_at := created_at old;
     updated_at := updated_at new;
     others := others old |}.

(** INSERT ... ON CONFLICT ... DO UPDATE ... RETURNING listing_id *)
Fixpoint upsert (new : Listing) (rows : list Listing) : list Listing * Z :=
  match rows with
  | [] => ([new], listing_id new)
  | old :: rest =>
      if conflicts new old
      then (do_update new old :: rest, listing_id old)
      else let (rest', id) := upsert new rest in (old :: rest', id)
  end.

(** save_place_to_db: [bool(result)], and False after any exception. *)
Definition save_place_to_db (executes : bool) (now new_id : Z)
           (place_data : PlaceData) (postcode : Z) (rows : list Listing)
  : list Listing * bool :=
  match proposed now new_id place_data postcode with
  | Raised => (rows, false)
  | Returned new =>
      if executes then (fst (upsert new rows), true) else (rows, false)
  end.
End Save.

(** The keys are unique: listing_id, and google_place_id where it is
    not NULL. *)
Fixpoint place_ids (rows : list Listing) : list string :=
  match rows with
  | [] => []
  | r :: rest =>
      match google_place_id r with
      | Some g => g :: place_ids rest
      | None => place_ids rest
      end
  end.

Definition well_formed (rows : list Listing) : Prop :=
  NoDup (map listing_id rows) /\ NoDup (place_ids rows).

(** A row with its updated_at blanked. *)
Definition without_updated_at (r : Listing) : Listing :=
  {| listing_id := listing_id r;
     google_place_id := google_place_id r;
     l_name := l_name r;
     address := address r;
     latitude := latitude r;
     longitude := longitude r;
     postcode_id := postcode_id r;
     website_url := website_url r;
     phone := phone r;
     post_title := post_title r;
     post_type := post_type r;
     street := street r;
     city := city r;
     region := region r;
     country := country r;
     zip := zip r;
     l_post_category := l_post_category r;
     l_default_category := l_default_category r;
     created_at := created_at r;
     updated_at := None;
     others := others r |}.

End Listings.

(** A place as the details call may describe it, and a table that
    already holds it under postcode 7. *)
Definition sample_place : Listings.PlaceData :=
  {| Listings.place_id := Some "ChIJ1"%string;
     Listings.name := Some "Gem & Co"%string;
     Listings.formatted_address := Some "1 High St"%string;
     Listings.location := Some (-338688000, 1512093000);
     Listings.website := None;
     Listings.formatted_phone_number := Some "02 5550 0000"%string;
     Listings.address_components :=
       Some [ Listings.mkComponent (Some "1"%string) (Some ["street_number"%string]);
              Listings.mkComponent (Some "High St"%string) (Some ["route"%string]) ];
     Listings.place_types := Some ["Jeweler"%string];
     Listings.other_keys := false |}.

Definition sample_listing : Listings.Listing :=
  {| Listings.listing_id := 4;
     Listings.google_place_id := Some "ChIJ1"%string;
     Listings.l_name := Some "Gem and Company"%string;
     Listings.address := None;
     Listings.latitude := None;
     Listings.longitude := None;
     Listings.postcode_id := Some 7;
     Listings.website_url := None;
     Listings.phone := None;
     Listings.post_title := None;
     Listings.post_type := Some "gd_place"%string;
     Listings.street := None;
     Listings.city := None;
     Listings.region := None;
     Listings.country := None;
     Listings.zip := None;
     Listings.l_post_category := None;
     Listings.l_default_category := None;
     Listings.created_at := Some 1;
     Listings.updated_at := Some 1;
     Listings.others := [Some "a blurb"%string] |}.

(** ** Searching one cluster (process_postcode of 1_Places_scraper.py)

    The Places service and the database engine are outside the program:
    [World] is their state, and each call or statement is a step on it.
    [search_places] and [get_place_details] return or raise; [engine]
    says, for the next statement, whether it is carried out, and gives
    its NOW() and the next value of the sequence. *)

Module Places.

(** An entry of the search results. *)
Record Place := mkPlace {
  place_id : option string;
  name : option string
}.

Definition JEWELRY_KEYWORDS : list string :=
  ["jeweler"; "jeweller"; "jewelry store"]%string.

(** Truth value of the details dict: false for the empty dict. *)
Definition truthy (pd : Listings.PlaceData) : bool :=
  is_not_null (Listings.place_id pd) || is_not_null (Listings.name pd)
  || is_not_null (Listings.formatted_address pd)
  || is_not_null (Listings.location pd) || is_not_null (Listings.website pd)
  || is_not_null (Listings.formatted_phone_number pd)
  || is_not_null (Listings.address_components pd)
  || is_not_null (Listings.place_types pd) || Listings.other_keys pd.

Section Process.
Variable World : Type.
Variable search_places : World -> Z -> Z -> string -> World * outcome (list Place).
Variable get_place_details :
  World -> string -> World * outcome (option Listings.PlaceData).
Variable engine : World -> World * (bool * Z * Z).
Variable strip : string -> string.
Variable default_others : list (option string).
Variable no_result_set : outcome (list Z).

(** save_place_to_db with its statement sent to the engine; no statement
    is sent when the params cannot be put together. *)
Definition save_place (w : World) (place_data : Listings.PlaceData)
           (postcode : Z) (rows : list Listings.Listing)
  : World * list Listings.Listing * bool :=
  match Listings.proposed strip default_others 0 0 place_data postcode with
  | Raised => (w, rows, false)
  | Returned _ =>
      match engine w with
      | (w', (executes, now, new_id)) =>
          match Listings.save_place_to_db strip default_others executes now
                  new_id place_data postcode rows with
          | (rows', saved) => (w', rows', saved)
          end
      end
  end.

(** for place in places: try: ... except Exception: continue *)
Fixpoint places_loop (postcode : Z) (places : list Place)
         (st : World * list Listings.Listing * Z)
  : World * list Listings.Listing * Z :=
  match places with
  | [] => st
  | place :: rest =>
      match st with
      | (w, rows, places_found) =>
          match place_id place with
          | None => places_loop postcode rest st
          | Some pid =>
              match get_place_details w pid with
              | (w1, Raised) => places_loop postcode rest (w1, rows, places_found)
              | (w1, Returned None) =>
                  places_loop postcode rest (w1, rows, places_found)
              | (w1, Returned (Some details)) =>
                  if truthy details
                  then match save_place w1 details postcode rows with
                       | (w2, rows', saved) =>
                           places_loop postcode rest
                             (w2, rows',
                              if saved then places_found + 1 else places_found)
                       end
                  else places_loop postcode rest (w1, rows, places_found)
              end
          end
      end
  end.

(** for keyword in JEWELRY_KEYWORDS: try: ... except Exception: continue *)
Fixpoint keywords_loop (postcode latitude longitude : Z) (keywords : list string)
         (st : World * list Listings.Listing * Z)
  : World * list Listings.Listing * Z :=
  match keywords with
  | [] => st
  | keyword :: rest =>
      match st with
      | (w, rows, places_found) =>
          match search_places w latitude longitude keyword with
          | (w1, Raised) =>
              keywords_loop postcode latitude longitude rest (w1, rows, places_found)
          | (w1, Returned places) =>
              keywords_loop postcode latitude longitude rest
                (places_loop postcode places (w1, rows, places_found))
          end
      end
  end.

(** update_task_status with its statement sent to the engine. *)
Definition set_status (w : World) (id : Z) (new_status : string)
           (new_error : option string) (tasks : Tasks.Db) : World * Tasks.Db :=
  match engine w with
  | (w', (executes, now, _)) =>
      (w', fst (Tasks.update_task_status no_result_set executes now id
                  new_status new_error tasks))
  end.

(** process_postcode.  Every statement of its try block either has a
    handler of its own or, like update_task_status, handles its
    exceptions itself, so the handler that would mark the task 'failed'
    is not reached and has no part here. *)
Definition process_postcode (postcode latitude longitude task : Z)
           (st : World * Tasks.Db * list Listings.Listing)
  : World * Tasks.Db * list Listings.Listing * Z :=
  match st with
  | (w, tasks, rows) =>
      match set_status w task "processing" None tasks with
      | (w1, tasks1) =>
          match keywords_loop postcode latitude longitude JEWELRY_KEYWORDS
                  (w1, rows, 0) with
          | (w2, rows2, places_found) =>
              match set_status w2 task "completed" None tasks1 with
              | (w3, tasks3) => (w3, tasks3, rows2, places_found)
              end
          end
      end
  end.
End Process.

End Places.

(** The counter and the table along the loops of process_postcode: the
    counter does not go down, the table does not shrink, it grows by at
    most the increase of the counter, and it is unchanged when the
    counter is. *)
Definition grows {World : Type} (st st' : World * list Listings.Listing * Z)
  : Prop :=
  match st, st' with
  | (_, rows, n), (_, rows', n') =>
      n <= n' /\
      (List.length rows <= List.length rows')%nat /\
      Z.of_nat (List.length rows') <= Z.of_nat (List.length rows) + (n' - n) /\
      (n' = n -> rows' = rows)
  end.

(** ** Notions used in the statements *)



(** COUNT(DISTINCT b.id) is the number of non-NULL entries of the array. *)
Definition non_null_count (u : list (option Z)) : Z :=
  Z.of_nat (List.length (filter is_not_null u)).

(** The location a selected cluster is centred on. *)
Definition oc_location (oc : OptimizedCluster) : Location :=
  {| l_id := center_id (oc_pc oc);
     l_postcode := center_postcode (oc_pc oc);
     l_latitude := pc_latitude (oc_pc oc);
     l_longitude := pc_longitude (oc_pc oc) |}.


(** What the run leaves about clusters in a row: its id, whether it is a
    center, its cluster_id, and the covered array when it is a center. *)
Definition assignment (q : Postcode)
  : Z * bool * option Z * option (list (option Z)) :=
  (id q, is_true (is_cluster_center q), cluster_id q,
   if is_true (is_cluster_center q) then cluster_postcodes q else None).


(** Whether a row has both coordinates. *)
Definition geocoded_row (p : Postcode) : bool :=
  is_not_null (latitude p) && is_not_null (longitude p).

(** ** Points on one meridian

    For locations of equal longitude the Haversine distance is the arc
    6371 * PI * |dlat| / 180; with radius_km = 5 the join condition then
    holds up to 0.035 degrees of latitude and fails from 0.0471 degrees
    on, whatever the decimals of PI. *)

Definition near5 (a b : Location) : bool :=
  Z.abs (l_latitude b - l_latitude a) <=? 4000000.

Definition meridian_pair_ok (a b : Location) : bool :=
  (l_longitude b =? l_longitude a)
  && ((Z.abs (l_latitude b - l_latitude a) <=? 3500000)
      || ((4710000 <=? Z.abs (l_latitude b - l_latitude a))
          && (Z.abs (l_latitude b - l_latitude a) <=? 18000000000))).

Definition meridian_ok (locs : list Location) : bool :=
  forallb (fun a => forallb (meridian_pair_ok a) locs) locs.

(** ** Sample tables *)

(** A freshly loaded, geocoded row. *)
Definition geocoded (i la lo : Z) : Postcode :=
  {| id := i; postcode := None; latitude := Some la; longitude := Some lo;
     is_cluster_center := Some false; cluster_id := None;
     cluster_postcodes := None; last_scraped := None; last_updated := None;
     scrape_status := Some "pending"%string; error_message := None;
     extra := [] |}.

(** Three points on the meridian 0, 0.03 degrees (about 3.3 km) apart:
    the middle one is within 5 km of both ends, the ends are not within
    5 km of each other. *)
Definition chain_table : Table :=
  [geocoded 1 0 0; geocoded 2 3000000 0; geocoded 3 6000000 0].

(** Two points 0.01 degrees (about 1.1 km) apart, the row with the higher
    id stored first. *)
Definition swapped_table : Table :=
  [geocoded 2 0 0; geocoded 1 1000000 0].


(** A table without coordinates. *)
Definition ungeocoded_table : Table :=
  [ {| id := 1; postcode := Some "2000"%string; latitude := None;
       longitude := Some 0; is_cluster_center := Some true;
       cluster_id := Some 1; cluster_postcodes := Some [Some 1];
       last_scraped := None; last_updated := None; scrape_status := None;
       error_message := None; extra := [] |} ].


(** The cluster selected on the swapped table when the candidates are
    numbered in the order of their ids. *)
Definition swapped_selected : OptimizedCluster :=
  {| oc_pc := {| center_id := 1; center_postcode := None;
                 pc_latitude := 1000000; pc_longitude := 0;
                 covered_postcodes := [Some 1; Some 2];
                 coverage_count := 2 |};
     oc_cluster_id := 1 |}.

(** A table with one clustered and one never-clustered row. *)
Definition reset_frame_table : Table :=
  [ mkPostcode 1 (Some "2000"%string) (Some 0) (Some 0) (Some true) (Some 1)
      (Some [Some 1]) (Some 5) (Some 6) (Some "done"%string)
      (Some "boom"%string) ["Sydney"%string];
    mkPostcode 2 None None None None None None None None None None [] ].

(** ** The reimplementation rules of the specification, as predicates *)




(** ** Theorems about the reset statement *)

Lemma reset_where_reset_set (p : Postcode) : reset_where (reset_set p) = false.
Proof. reflexivity. Qed.

Lemma reset_row_idem (p : Postcode) : reset_row (reset_row p) = reset_row p.
Proof.
  unfold reset_row at 2 3.
  destruct (reset_where p) eqn:E.
  - unfold reset_row. now rewrite reset_where_reset_set.
  - unfold reset_row. now rewrite E.
Qed.

(** C8 -- Reset idempotence: running the reset statement twice in a row
    leaves the table exactly as running it once does, from every starting
    table. *)
Theorem reset_clusters_idempotent (t : Table) :
  reset_clusters (reset_clusters t) = reset_clusters t.
Proof.
  unfold reset_clusters. rewrite map_map.
  apply map_ext. intros p. apply reset_row_idem.
Qed.

(** C10 -- Reset frame: the reset statement keeps every row in place; a
    row outside its WHERE clause is unchanged, a row inside it gets
    exactly is_cluster_center = FALSE, cluster_id = NULL,
    cluster_postcodes = NULL, scrape_status = 'pending' and
    error_message = NULL, and all its other columns are unchanged. *)
Theorem reset_frame (t : Table) (i : nat) (p : Postcode) :
  nth_error t i = Some p ->
  List.length (reset_clusters t) = List.length t /\
  exists p',
    nth_error (reset_clusters t) i = Some p' /\
    (reset_where p = false -> p' = p) /\
    (reset_where p = true ->
       is_cluster_center p' = Some false /\ cluster_id p' = None /\
       cluster_postcodes p' = None /\
       scrape_status p' = Some "pending"%string /\ error_message p' = None) /\
    id p' = id p /\ postcode p' = postcode p /\
    latitude p' = latitude p /\ longitude p' = longitude p /\
    last_scraped p' = last_scraped p /\ last_updated p' = last_updated p /\
    extra p' = extra p.
Proof.
  intros Hi. split.
  - apply length_map.
  - exists (reset_row p). split.
    + unfold reset_clusters. now apply map_nth_error.
    + unfold reset_row. destruct (reset_where p); repeat split; simpl;
        try reflexivity; intros; discriminate.
Qed.

Lemma reset_frame_witness :
  nth_error reset_frame_table 0 =
    Some (mkPostcode 1 (Some "2000"%string) (Some 0) (Some 0) (Some true)
            (Some 1) (Some [Some 1]) (Some 5) (Some 6) (Some "done"%string)
            (Some "boom"%string) ["Sydney"%string]) /\
  List.length (reset_clusters reset_frame_table) = List.length reset_frame_table.
Proof.
  split; [reflexivity|].
  exact (proj1 (reset_frame reset_frame_table 0 _ eq_refl)).
Defined.

(** ** Sorting lemmas *)

Section SortingFacts.
Context {A : Type}.
Variable leb : A -> A -> bool.



Lemma insert_by_length (x : A) (l : list A) :
  List.length (insert_by leb x l) = S (List.length l).
Proof.
  induction l as [|h l IH]; simpl; [reflexivity|].
  destruct (leb x h); simpl; congruence.
Qed.

Hypothesis leb_total : forall x y, leb x y = true \/ leb y x = true.
Hypothesis leb_trans :
  forall x y z, leb x y = true -> leb y z = true -> leb x z = true.


End SortingFacts.

(** ** The cluster queue *)




(** ** Signatures: ascending arrays without duplicates *)

Lemma insert_distinct_In (x y : Z) (l : list Z) :
  In y (insert_distinct x l) <-> y = x \/ In y l.
Proof.
  induction l as [|h l IH]; simpl; [intuition|].
  destruct (Z.compare_spec x h); simpl.
  - subst. intuition.
  - intuition.
  - rewrite IH. intuition.
Qed.

Lemma sort_distinct_In (y : Z) (l : list Z) : In y (sort_distinct l) <-> In y l.
Proof.
  induction l as [|h l IH]; simpl; [tauto|].
  rewrite insert_distinct_In, IH. intuition.
Qed.






Lemma array_agg_distinct_In (x : Z) (ids : list Z) :
  In (Some x) (array_agg_distinct ids) <-> In x ids.
Proof.
  destruct ids as [|h l].
  - simpl. split; [intros [H|[]]; discriminate|tauto].
  - unfold array_agg_distinct. rewrite in_map_iff. split.
    + intros [y [E Hy]]. injection E as ->.
      exact (proj1 (sort_distinct_In _ _) Hy).
    + intros H. exists x. split; [reflexivity|now apply sort_distinct_In].
Qed.


Lemma count_distinct_array (ids : list Z) :
  count_distinct ids = non_null_count (array_agg_distinct ids).
Proof.
  unfold count_distinct, non_null_count.
  destruct ids as [|h l]; [reflexivity|].
  unfold array_agg_distinct. f_equal.
  generalize (sort_distinct (h :: l)). intros s.
  induction s as [|a s IH]; simpl; congruence.
Qed.

Lemma array_compare_refl (u : list (option Z)) : array_compare u u = Eq.
Proof.
  induction u as [|x u IH]; simpl; [reflexivity|].
  destruct x as [z|]; simpl; [rewrite Z.compare_refl|]; exact IH.
Qed.

Lemma array_eqb_true (u v : list (option Z)) : array_eqb u v = true <-> u = v.
Proof. unfold array_eqb. destruct (array_eq_dec u v); split; congruence. Qed.

Lemma array_eqb_false (u v : list (option Z)) : array_eqb u v = false <-> u <> v.
Proof. unfold array_eqb. destruct (array_eq_dec u v); split; congruence. Qed.

(** ** DISTINCT ON *)

Section DistinctOnFacts.
Context {A : Type}.
Variable key : A -> list (option Z).

Lemma distinct_on_from_In (seen : list (list (option Z))) (l : list A) (x : A) :
  In x (distinct_on_from key seen l) -> In x l /\ ~ In (key x) seen.
Proof.
  revert seen. induction l as [|h l IH]; simpl; intros seen; [tauto|].
  destruct (existsb (array_eqb (key h)) seen) eqn:E.
  - intros H. apply IH in H. tauto.
  - intros [<-|H].
    + split; [now left|]. intros Hin.
      assert (existsb (array_eqb (key h)) seen = true); [|congruence].
      apply existsb_exists. exists (key h). split; [assumption|].
      now apply array_eqb_true.
    + apply IH in H. simpl in H. tauto.
Qed.

Lemma distinct_on_from_NoDup (seen : list (list (option Z))) (l : list A) :
  NoDup (map key (distinct_on_from key seen l)).
Proof.
  revert seen. induction l as [|h l IH]; simpl; intros seen; [constructor|].
  destruct (existsb (array_eqb (key h)) seen); [apply IH|].
  simpl. constructor; [|apply IH].
  rewrite in_map_iff. intros [y [E Hy]].
  apply distinct_on_from_In in Hy. destruct Hy as [_ Hy].
  apply Hy. left. congruence.
Qed.

(** The row kept for a key is the first row of the input with that key. *)
Lemma distinct_on_from_find (k : list (option Z)) (seen : list (list (option Z)))
      (l : list A) :
  ~ In k seen ->
  find (fun x => array_eqb (key x) k) (distinct_on_from key seen l)
  = find (fun x => array_eqb (key x) k) l.
Proof.
  revert seen. induction l as [|h l IH]; simpl; intros seen Hk; [reflexivity|].
  destruct (existsb (array_eqb (key h)) seen) eqn:E.
  - destruct (array_eqb (key h) k) eqn:Ek.
    + exfalso. apply array_eqb_true in Ek. subst k.
      apply existsb_exists in E. destruct E as [s [Hs Es]].
      apply array_eqb_true in Es. subst s. contradiction.
    + now apply IH.
  - simpl. destruct (array_eqb (key h) k) eqn:Ek; [reflexivity|].
    apply IH. intros [H|H]; [|contradiction].
    apply array_eqb_false in Ek. contradiction.
Qed.

Lemma distinct_on_NoDup (l : list A) : NoDup (map key (distinct_on key l)).
Proof. apply distinct_on_from_NoDup. Qed.

Lemma distinct_on_In (l : list A) (x : A) : In x (distinct_on key l) -> In x l.
Proof. intros H. now apply distinct_on_from_In in H. Qed.

Lemma distinct_on_find (k : list (option Z)) (l : list A) :
  find (fun x => array_eqb (key x) k) (distinct_on key l)
  = find (fun x => array_eqb (key x) k) l.
Proof. apply distinct_on_from_find. intros []. Qed.

(** Every key of the input keeps a row. *)
Lemma distinct_on_covers (l : list A) (x : A) :
  In x l -> exists y, In y (distinct_on key l) /\ key y = key x.
Proof.
  intros Hx.
  destruct (find (fun z => array_eqb (key z) (key x)) (distinct_on key l)) eqn:E.
  - apply find_some in E. destruct E as [H1 H2].
    apply array_eqb_true in H2. eauto.
  - rewrite distinct_on_find in E.
    apply (find_none _ _ E) in Hx.
    apply array_eqb_false in Hx. congruence.
Qed.

End DistinctOnFacts.

(** ** Rows, locations and candidates *)

Lemma NoDup_map_inj {A B : Type} (f : A -> B) (l : list A) (x y : A) :
  NoDup (map f l) -> In x l -> In y l -> f x = f y -> x = y.
Proof.
  induction l as [|h l IH]; simpl; [tauto|].
  intros ND Hx Hy E. inversion ND as [|? ? Hh ND']; subst.
  destruct Hx as [->|Hx], Hy as [->|Hy]; auto.
  - exfalso. apply Hh. rewrite E. now apply in_map.
  - exfalso. apply Hh. rewrite <- E. now apply in_map.
Qed.

Lemma location_of_In (p : Postcode) (a : Location) :
  In a (location_of p) <->
  latitude p = Some (l_latitude a) /\ longitude p = Some (l_longitude a) /\
  id p = l_id a /\ postcode p = l_postcode a.
Proof.
  unfold location_of. destruct a as [i pc la lo]; simpl.
  destruct (latitude p) as [la'|], (longitude p) as [lo'|]; simpl;
    split; try (intros [H|[]]; try injection H; intros; subst; auto);
    try tauto; try (intros [? [? _]]; discriminate).
  intros [E1 [E2 [E3 E4]]]. left. congruence.
Qed.

Lemma numbered_locations_In (t : Table) (a : Location) :
  In a (numbered_locations t) <->
  exists p, In p t /\ latitude p = Some (l_latitude a) /\
            longitude p = Some (l_longitude a) /\
            id p = l_id a /\ postcode p = l_postcode a.
Proof.
  unfold numbered_locations. rewrite in_flat_map.
  split; intros [p [Hp H]]; exists p; (split; [assumption|]);
    now apply location_of_In.
Qed.

Lemma location_of_reset_row (p : Postcode) :
  location_of (reset_row p) = location_of p.
Proof. unfold reset_row. now destruct (reset_where p). Qed.

Lemma numbered_locations_reset (t : Table) :
  numbered_locations (reset_clusters t) = numbered_locations t.
Proof.
  unfold numbered_locations, reset_clusters.
  induction t as [|p t IH]; [reflexivity|].
  simpl. now rewrite location_of_reset_row, IH.
Qed.

Lemma id_reset_row (p : Postcode) : id (reset_row p) = id p.
Proof. unfold reset_row. now destruct (reset_where p). Qed.

Lemma map_id_reset (t : Table) : map id (reset_clusters t) = map id t.
Proof.
  unfold reset_clusters. rewrite map_map. apply map_ext, id_reset_row.
Qed.

Lemma numbered_locations_ids (t : Table) (a : Location) :
  In a (numbered_locations t) -> In (l_id a) (map id t).
Proof.
  intros H. apply numbered_locations_In in H.
  destruct H as [p [Hp [_ [_ [E _]]]]]. rewrite <- E. now apply in_map.
Qed.

Lemma numbered_locations_NoDup (t : Table) :
  NoDup (map id t) -> NoDup (map l_id (numbered_locations t)).
Proof.
  induction t as [|p t IH]; simpl; intros ND; [constructor|].
  inversion ND as [|? ? Hp ND']; subst.
  unfold numbered_locations. simpl. fold (numbered_locations t).
  rewrite map_app. unfold location_of at 1.
  destruct (latitude p), (longitude p); simpl; auto.
  constructor; auto.
  rewrite in_map_iff. intros [a [E Ha]].
  apply Hp. rewrite <- E. now apply numbered_locations_ids.
Qed.

Lemma NoDup_of_map {A B : Type} (f : A -> B) (l : list A) :
  NoDup (map f l) -> NoDup l.
Proof.
  induction l as [|h l IH]; simpl; intros ND; constructor;
    inversion ND; subst; auto.
  intros H. apply H1. now apply in_map.
Qed.

(** The state after the reset: no row is a center, none has a cluster. *)
Lemma reset_row_clear (p : Postcode) :
  is_true (is_cluster_center (reset_row p)) = false /\
  cluster_id (reset_row p) = None.
Proof.
  destruct p as [i pc la lo [[|]|] [c|] cp ls lu ss em ex]; split; reflexivity.
Qed.


(** ** Row numbers *)

Lemma row_number_from_pc (n : Z) (l : list PotentialCluster) :
  map oc_pc (row_number_from n l) = l.
Proof. revert n. induction l; intros n; simpl; congruence. Qed.

Lemma row_number_from_ge (n : Z) (l : list PotentialCluster) (oc : OptimizedCluster) :
  In oc (row_number_from n l) -> n <= oc_cluster_id oc.
Proof.
  revert n. induction l as [|pc l IH]; intros n; simpl; [tauto|].
  intros [<-|H]; simpl; [lia|]. apply IH in H. lia.
Qed.

Lemma row_number_from_NoDup (n : Z) (l : list PotentialCluster) :
  NoDup (map oc_cluster_id (row_number_from n l)).
Proof.
  revert n. induction l as [|pc l IH]; intros n; simpl; constructor; auto.
  rewrite in_map_iff. intros [oc [E H]].
  apply row_number_from_ge in H. lia.
Qed.

(** ** The clustering statement, for any join condition *)

Section ClusteringFacts.
Variable within : Location -> Location -> bool.

Lemma candidate_covered (locs : list Location) (a : Location) (x : Z) :
  In (Some x) (covered_postcodes (candidate within locs a)) <->
  exists b, In b locs /\ within a b = true /\ l_id b = x.
Proof.
  simpl. rewrite array_agg_distinct_In. unfold joined_ids.
  rewrite in_map_iff. split.
  - intros [b [E Hb]]. apply filter_In in Hb. exists b. tauto.
  - intros [b [H1 [H2 H3]]]. exists b. split; [assumption|].
    apply filter_In. tauto.
Qed.

Lemma candidate_count (locs : list Location) (a : Location) :
  coverage_count (candidate within locs a)
  = non_null_count (covered_postcodes (candidate within locs a)).
Proof. apply count_distinct_array. Qed.

Lemma potential_clusters_In (t : Table) (pc : PotentialCluster) :
  In pc (potential_clusters within t) <->
  exists a, In a (numbered_locations t) /\
            pc = candidate within (numbered_locations t) a.
Proof.
  unfold potential_clusters. rewrite in_map_iff.
  split; intros [a [H1 H2]]; exists a.
  - apply nodup_In in H2. auto.
  - split; [auto|]. now apply nodup_In.
Qed.

Lemma numbered_clusters_In (t : Table) (oc : OptimizedCluster) :
  In oc (numbered_clusters within t) ->
  exists a, In a (numbered_locations t) /\
            oc_pc oc = candidate within (numbered_locations t) a.
Proof.
  intros H. apply potential_clusters_In.
  unfold numbered_clusters in H.
  rewrite <- (row_number_from_pc 1 (potential_clusters within t)).
  now apply in_map.
Qed.


Lemma numbered_clusters_count (t : Table) (oc : OptimizedCluster) :
  In oc (numbered_clusters within t) ->
  coverage_count (oc_pc oc) = non_null_count (oc_covered oc).
Proof.
  intros H. apply numbered_clusters_In in H. destruct H as [a [_ E]].
  unfold oc_covered. rewrite E. apply candidate_count.
Qed.







End ClusteringFacts.

(** ** The two assignment statements *)

Section RunFacts.
Variable within : Location -> Location -> bool.
Variables now1 now2 : Z.
Variable t : Table.
Hypothesis ids_unique : NoDup (map id t).

Let t0 := reset_clusters t.
Let ocs := optimized_clusters within t0.
Let t1 := map (centers_row now1 ocs) t0.











End RunFacts.

(** ** The Haversine distance *)

Section Haversine.
Local Open Scope R_scope.

Lemma within_radius_true (radius_km : R) (a b : Location) :
  within_radius radius_km a b = true <-> haversine_km a b <= radius_km.
Proof.
  unfold within_radius.
  destruct (Rle_dec (haversine_km a b) radius_km); split; auto; discriminate.
Qed.

Lemma within_radius_false (radius_km : R) (a b : Location) :
  within_radius radius_km a b = false <-> radius_km < haversine_km a b.
Proof.
  unfold within_radius.
  destruct (Rle_dec (haversine_km a b) radius_km); split; auto;
    try discriminate; intros; lra.
Qed.

Lemma half_angle_zero : sin (radians (degrees 0) / 2) ^ 2 = 0.
Proof.
  unfold radians, degrees.
  replace (0 / 100000000 * PI / 180 / 2) with 0 by field.
  rewrite sin_0. ring.
Qed.


Lemma half_angle_opp (z : Z) :
  sin (radians (degrees (- z)) / 2) ^ 2 = sin (radians (degrees z) / 2) ^ 2.
Proof.
  unfold radians, degrees. rewrite opp_IZR.
  replace (- IZR z / 100000000 * PI / 180 / 2)
    with (- (IZR z / 100000000 * PI / 180 / 2)) by field.
  rewrite sin_neg. ring.
Qed.

(** d(a,b) = d(b,a) *)
Lemma haversine_sym (a b : Location) : haversine_km a b = haversine_km b a.
Proof.
  unfold haversine_km.
  replace (l_latitude a - l_latitude b)%Z
    with (- (l_latitude b - l_latitude a))%Z by lia.
  replace (l_longitude a - l_longitude b)%Z
    with (- (l_longitude b - l_longitude a))%Z by lia.
  rewrite !half_angle_opp.
  now rewrite (Rmult_comm (cos (radians (degrees (l_latitude b))))).
Qed.

(** Two locations on one meridian, [b] north of [a] by [d] units of
    1e-8 degree (at most 180 degrees): the distance is the arc
    6371 * PI * d / (180 * 1e8). *)
Lemma haversine_meridian (a b : Location) :
  l_longitude b = l_longitude a ->
  (0 <= l_latitude b - l_latitude a <= 18000000000)%Z ->
  haversine_km a b
  = 6371 * PI * IZR (l_latitude b - l_latitude a) / 18000000000.
Proof.
  intros Elon [Hlo Hhi]. unfold haversine_km.
  rewrite Elon, Z.sub_diag, half_angle_zero.
  set (d := (l_latitude b - l_latitude a)%Z) in *.
  set (x := radians (degrees d) / 2).
  replace (sin x ^ 2 + _ * _ * 0) with (sin x ^ 2) by ring.
  assert (Hd0 : 0 <= IZR d) by now apply IZR_le.
  assert (Hd1 : IZR d <= 18000000000) by now apply IZR_le.
  pose proof PI_RGT_0 as Hpi.
  assert (Hx : x = PI * IZR d / 36000000000).
  { unfold x, radians, degrees. field. }
  assert (Hx0 : 0 <= x).
  { rewrite Hx. apply Rmult_le_pos; [|lra]. apply Rmult_le_pos; lra. }
  assert (Hx1 : x <= PI / 2).
  { rewrite Hx.
    replace (PI / 2) with (PI * 18000000000 / 36000000000) by field.
    apply Rmult_le_compat_r; [lra|]. apply Rmult_le_compat_l; lra. }
  rewrite sqrt_pow2 by (apply sin_ge_0; lra).
  rewrite asin_sin by lra.
  rewrite Hx. field.
Qed.
End Haversine.

(** ** generate_clusters *)





(** Empty input, statements only: when no row has both coordinates, the
    three statements select no cluster, the count is 0, the table is as
    the reset left it, and no row is marked as a cluster center. *)
Theorem empty_input (radius_km : R) (now1 now2 : Z) (t : Table) :
  numbered_locations t = [] ->
  optimized_clusters (within_radius radius_km) (reset_clusters t) = [] /\
  generate_clusters radius_km now1 now2 t = (reset_clusters t, 0) /\
  (forall q, In q (fst (generate_clusters radius_km now1 now2 t)) ->
             is_true (is_cluster_center q) = false /\ cluster_id q = None).
Proof.
  intros E.
  assert (Hocs : optimized_clusters (within_radius radius_km) (reset_clusters t) = []).
  { unfold optimized_clusters, numbered_clusters, potential_clusters.
    rewrite numbered_locations_reset, E. reflexivity. }
  assert (Hrun : generate_clusters radius_km now1 now2 t = (reset_clusters t, 0)).
  { unfold generate_clusters, generate_clusters_with. rewrite Hocs.
    assert (H1 : map (centers_row now1 []) (reset_clusters t) = reset_clusters t).
    { rewrite <- (map_id (reset_clusters t)) at 2. now apply map_ext. }
    rewrite H1. f_equal.
    - rewrite <- (map_id (reset_clusters t)) at 3.
      apply map_ext_in. intros p0 Hp0. unfold members_row.
      destruct (find (members_where p0) (reset_clusters t)) as [c|] eqn:F;
        [|reflexivity].
      exfalso. apply find_some in F. destruct F as [Hc Hw].
      apply in_map_iff in Hc. destruct Hc as [c0 [<- _]].
      unfold members_where in Hw. destruct (reset_row_clear c0) as [Hc _].
      rewrite Hc in Hw. discriminate.
    - unfold centers_returning.
      assert (F : forall l : Table,
                 filter (fun p => existsb (centers_where p) []) l = []).
      { induction l; simpl; auto. }
      now rewrite F. }
  repeat split; auto; rewrite Hrun in H; simpl in H;
    apply in_map_iff in H; destruct H as [p [<- _]]; apply reset_row_clear.
Qed.



(** ** Evaluating the run on points of one meridian *)

Lemma potential_clusters_ext (w w' : Location -> Location -> bool) (t : Table) :
  (forall a b, In a (numbered_locations t) -> In b (numbered_locations t) ->
               w a b = w' a b) ->
  potential_clusters w t = potential_clusters w' t.
Proof.
  intros H. unfold potential_clusters. apply map_ext_in. intros a Ha.
  apply nodup_In in Ha. unfold candidate, joined_ids.
  assert (E : filter (w a) (numbered_locations t)
              = filter (w' a) (numbered_locations t)).
  { apply filter_ext_in. intros b Hb. now apply H. }
  now rewrite E.
Qed.

Lemma optimized_clusters_ext (w w' : Location -> Location -> bool) (t : Table) :
  (forall a b, In a (numbered_locations t) -> In b (numbered_locations t) ->
               w a b = w' a b) ->
  optimized_clusters w t = optimized_clusters w' t.
Proof.
  intros H. unfold optimized_clusters, numbered_clusters.
  now rewrite (potential_clusters_ext w w' t H).
Qed.

Lemma generate_clusters_with_ext (w w' : Location -> Location -> bool)
      (now1 now2 : Z) (t : Table) :
  (forall a b, In a (numbered_locations t) -> In b (numbered_locations t) ->
               w a b = w' a b) ->
  generate_clusters_with w now1 now2 t = generate_clusters_with w' now1 now2 t.
Proof.
  intros H. unfold generate_clusters_with.
  rewrite (optimized_clusters_ext w w' (reset_clusters t)); [reflexivity|].
  now rewrite numbered_locations_reset.
Qed.

Lemma PI_gt_3 : (3 < PI)%R.
Proof. pose proof PI2_3_2. lra. Qed.

Lemma haversine_meridian_abs (a b : Location) :
  l_longitude b = l_longitude a ->
  Z.abs (l_latitude b - l_latitude a) <= 18000000000 ->
  haversine_km a b
  = (6371 * PI * IZR (Z.abs (l_latitude b - l_latitude a)) / 18000000000)%R.
Proof.
  intros Elon Hd.
  destruct (Z.le_ge_cases 0 (l_latitude b - l_latitude a)) as [Hs|Hs].
  - rewrite Z.abs_eq in * by assumption. apply haversine_meridian; auto.
  - rewrite haversine_sym.
    replace (Z.abs (l_latitude b - l_latitude a))
      with (l_latitude a - l_latitude b) in * by lia.
    apply haversine_meridian; auto. lia.
Qed.

Lemma within_radius_5_meridian (a b : Location) :
  meridian_pair_ok a b = true -> within_radius 5 a b = near5 a b.
Proof.
  unfold meridian_pair_ok, near5. intros H.
  apply andb_prop in H. destruct H as [Elon H]. apply Z.eqb_eq in Elon.
  set (d := Z.abs (l_latitude b - l_latitude a)) in *.
  assert (Hd0 : 0 <= d) by apply Z.abs_nonneg.
  pose proof PI_gt_3 as Hpi3. pose proof PI_4 as Hpi4.
  apply orb_prop in H. destruct H as [H|H].
  - apply Z.leb_le in H.
    assert (E : (d <=? 4000000) = true) by (apply Z.leb_le; lia).
    rewrite E. apply within_radius_true.
    rewrite haversine_meridian_abs by (fold d; auto; lia). fold d.
    assert (H1 : (0 <= IZR d)%R) by now apply IZR_le.
    assert (H2 : (IZR d <= 3500000)%R) by now apply IZR_le.
    assert (H3 : (PI * IZR d <= 4 * 3500000)%R).
    { apply Rmult_le_compat; lra. }
    lra.
  - apply andb_prop in H. destruct H as [H Hhi].
    apply Z.leb_le in H, Hhi.
    assert (E : (d <=? 4000000) = false) by (apply Z.leb_gt; lia).
    rewrite E. apply within_radius_false.
    rewrite haversine_meridian_abs by (fold d; auto). fold d.
    assert (H2 : (4710000 <= IZR d)%R) by now apply IZR_le.
    assert (H3 : (3 * 4710000 <= PI * IZR d)%R).
    { apply Rmult_le_compat; lra. }
    lra.
Qed.

Lemma meridian_ok_agree (locs : list Location) (a b : Location) :
  meridian_ok locs = true -> In a locs -> In b locs ->
  within_radius 5 a b = near5 a b.
Proof.
  unfold meridian_ok. intros H Ha Hb. apply within_radius_5_meridian.
  rewrite forallb_forall in H. specialize (H a Ha).
  rewrite forallb_forall in H. now apply H.
Qed.

Lemma meridian_run (now1 now2 : Z) (t : Table) :
  meridian_ok (numbered_locations t) = true ->
  generate_clusters 5 now1 now2 t = generate_clusters_with near5 now1 now2 t.
Proof.
  intros H. apply generate_clusters_with_ext.
  intros a b. now apply meridian_ok_agree.
Qed.

Lemma meridian_potential (t : Table) :
  meridian_ok (numbered_locations t) = true ->
  potential_clusters (within_radius 5) (reset_clusters t)
  = potential_clusters near5 (reset_clusters t).
Proof.
  intros H. apply potential_clusters_ext. rewrite numbered_locations_reset.
  intros a b. now apply meridian_ok_agree.
Qed.

Lemma meridian_optimized (t : Table) :
  meridian_ok (numbered_locations t) = true ->
  optimized_clusters (within_radius 5) (reset_clusters t)
  = optimized_clusters near5 (reset_clusters t).
Proof.
  intros H. unfold optimized_clusters, numbered_clusters.
  now rewrite meridian_potential.
Qed.

(** ** The run on the sample tables *)

Lemma chain_table_meridian : meridian_ok (numbered_locations chain_table) = true.
Proof. reflexivity. Qed.

Lemma chain_table_ids : NoDup (map id chain_table).
Proof.
  simpl. repeat constructor; simpl; intuition discriminate.
Qed.

Lemma swapped_table_ids : NoDup (map id swapped_table).
Proof.
  simpl. repeat constructor; simpl; intuition discriminate.
Qed.

(** The run on the chain: three clusters, and the assignment
    1 -> cluster 2, 2 -> cluster 1, 3 -> cluster 2. *)
Lemma chain_table_run :
  map assignment (fst (generate_clusters 5 10 20 chain_table))
  = [ (1, true, Some 2, Some [Some 1; Some 2]);
      (2, true, Some 1, Some [Some 1; Some 2; Some 3]);
      (3, true, Some 2, Some [Some 2; Some 3]) ] /\
  snd (generate_clusters 5 10 20 chain_table) = 3.
Proof.
  rewrite (meridian_run 10 20 chain_table chain_table_meridian).
  split; reflexivity.
Qed.

Lemma chain_table_selected :
  map (fun oc => (oc_center oc, oc_covered oc, oc_cluster_id oc))
      (optimized_clusters (within_radius 5) (reset_clusters chain_table))
  = [ (1, [Some 1; Some 2], 1);
      (2, [Some 1; Some 2; Some 3], 2);
      (3, [Some 2; Some 3], 3) ].
Proof.
  rewrite (meridian_optimized chain_table chain_table_meridian). reflexivity.
Qed.


(** ** The theorems at the sample tables *)




(** The queue on three clusters: the one never scraped goes first; the
    one scraped a day ago is not due. *)
Example get_next_cluster_sample :
  map Scraper.id
    (Scraper.get_next_cluster (30 * 86400 * 1000000)
       [ Scraper.mkCluster 1 None None None None None (Some 0);
         Scraper.mkCluster 2 None None None None None None;
         Scraper.mkCluster 3 None None None None None
           (Some (29 * 86400 * 1000000)) ])
  = [2].
Proof. reflexivity. Qed.


(** ** The call through execute_query *)

(** A call that returns has run the three statements. *)
Lemma generate_clusters_call_returned (no_result_set : outcome (list Z))
      (radius_km : R) (now1 now2 : Z) (t final : Table) (n : Z) :
  generate_clusters_call no_result_set radius_km now1 now2 t
  = (final, Returned n) ->
  generate_clusters radius_km now1 now2 t = (final, n).
Proof.
  unfold generate_clusters_call, generate_clusters, generate_clusters_with.
  destruct no_result_set as [rows|]; simpl; [|discriminate].
  intros [= <- <-]. reflexivity.
Qed.

(** With a cursor that hands back rows after any statement, the call
    returns what the three statements give. *)
Lemma generate_clusters_call_rows (rows : list Z) (radius_km : R)
      (now1 now2 : Z) (t : Table) :
  generate_clusters_call (Returned rows) radius_km now1 now2 t
  = (fst (generate_clusters radius_km now1 now2 t),
     Returned (snd (generate_clusters radius_km now1 now2 t))).
Proof. reflexivity. Qed.

(** With psycopg2's cursor the call raises on every table, once the
    reset is committed. *)
Lemma generate_clusters_call_psycopg2 (radius_km : R) (now1 now2 : Z)
      (t : Table) :
  generate_clusters_call psycopg2_no_result_set radius_km now1 now2 t
  = (reset_clusters t, Raised).
Proof. reflexivity. Qed.

(** C7 -- Empty input, at a table without coordinates: the statements
    would select no cluster and count 0, but the call does not return 0;
    it raises after the reset, because execute_query asks the cursor for
    the rows of an UPDATE that has none. *)
Theorem empty_input_raises :
  numbered_locations ungeocoded_table = [] /\
  generate_clusters 5 10 20 ungeocoded_table
  = (reset_clusters ungeocoded_table, 0) /\
  generate_clusters_call psycopg2_no_result_set 5 10 20 ungeocoded_table
  = (reset_clusters ungeocoded_table, Raised) /\
  generate_clusters_call psycopg2_no_result_set 5 10 20 ungeocoded_table
  <> (reset_clusters ungeocoded_table, Returned 0).
Proof.
  split; [reflexivity|]. split.
  - exact (proj1 (proj2 (empty_input 5 10 20 ungeocoded_table eq_refl))).
  - split; [reflexivity|]. rewrite generate_clusters_call_psycopg2.
    intros E. discriminate E.
Qed.


(** ** Further properties of generate_clusters *)











Section RunSoundness.
Variable within : Location -> Location -> bool.
Variables now1 now2 : Z.
Variable t : Table.
Hypothesis ids_unique : NoDup (map id t).

Let t0 := reset_clusters t.
Let ocs := optimized_clusters within t0.
Let t1 := map (centers_row now1 ocs) t0.







End RunSoundness.








Section CenterCount.
Variable within : Location -> Location -> bool.
Variables now1 now2 : Z.
Variable t : Table.
Hypothesis ids_unique : NoDup (map id t).

Let ocs := optimized_clusters within (reset_clusters t).



End CenterCount.



Lemma row_number_from_lt (n : Z) (l : list PotentialCluster) (oc : OptimizedCluster) :
  In oc (row_number_from n l) -> oc_cluster_id oc < n + Z.of_nat (List.length l).
Proof.
  revert n. induction l as [|pc l IH]; intros n; simpl List.length; [intros []|].
  intros [<-|H]; simpl; [lia|]. apply IH in H. lia.
Qed.

Lemma nodup_length_le {A : Type} (dec : forall x y : A, {x = y} + {x <> y})
      (l : list A) :
  (List.length (nodup dec l) <= List.length l)%nat.
Proof.
  induction l as [|h l IH]; simpl; [lia|].
  destruct (in_dec dec h l); simpl; lia.
Qed.

(** ** Further properties of the Haversine condition *)

Section HaversineBounds.
Local Open Scope R_scope.

(** X6 -- The coverage relation is symmetric: for geocoded rows a and b
    of a table with unique ids, b's id is in the covered array of a's
    candidate exactly when a's id is in the covered array of b's. *)
Theorem coverage_symmetric (radius_km : R) (t : Table) (a b : Location) :
  NoDup (map id t) ->
  In a (numbered_locations t) -> In b (numbered_locations t) ->
  (In (Some (l_id b))
      (covered_postcodes
         (candidate (within_radius radius_km) (numbered_locations t) a))
   <->
   In (Some (l_id a))
      (covered_postcodes
         (candidate (within_radius radius_km) (numbered_locations t) b))).
Proof.
  intros ND Ha Hb. pose proof (numbered_locations_NoDup t ND) as NDl.
  rewrite !candidate_covered. split; intros [c [Hc [Hw E]]].
  - assert (c = b) as -> by (apply (NoDup_map_inj l_id (numbered_locations t)); auto).
    exists a. repeat split; auto. apply within_radius_true.
    rewrite haversine_sym. now apply within_radius_true.
  - assert (c = a) as -> by (apply (NoDup_map_inj l_id (numbered_locations t)); auto).
    exists b. repeat split; auto. apply within_radius_true.
    rewrite haversine_sym. now apply within_radius_true.
Qed.
End HaversineBounds.

Lemma coverage_symmetric_witness :
  In (Some 2)
     (covered_postcodes
        (candidate (within_radius 5) (numbered_locations chain_table)
                   (mkLocation 1 None 0 0)))
  <->
  In (Some 1)
     (covered_postcodes
        (candidate (within_radius 5) (numbered_locations chain_table)
                   (mkLocation 2 None 3000000 0))).
Proof.
  refine (coverage_symmetric 5 chain_table (mkLocation 1 None 0 0)
            (mkLocation 2 None 3000000 0) chain_table_ids _ _).
  - left; reflexivity.
  - right; left; reflexivity.
Defined.

(** ** The task log *)

Lemma tasks_lookup_In (id : Z) (db : Tasks.Db) (r : Tasks.Task) :
  Tasks.lookup id db = Some r -> In r (Tasks.rows db) /\ Tasks.task_id r = id.
Proof.
  unfold Tasks.lookup. intros H. apply find_some in H.
  destruct H as [H1 H2]. apply Z.eqb_eq in H2. auto.
Qed.

Lemma find_app_found {A : Type} (f : A -> bool) (l l' : list A) (x : A) :
  find f l = Some x -> find f (l ++ l') = Some x.
Proof.
  induction l as [|h l IH]; simpl; [discriminate|].
  now destruct (f h).
Qed.

Lemma tasks_lookup_app_fresh (id : Z) (l : list Tasks.Task) (r : Tasks.Task) :
  (forall x, In x l -> Tasks.task_id x <> id) -> Tasks.task_id r = id ->
  find (fun x => Tasks.task_id x =? id) (l ++ [r]) = Some r.
Proof.
  intros Hl Hr. induction l as [|h l IH]; simpl.
  - now rewrite Hr, Z.eqb_refl.
  - destruct (Z.eqb_spec (Tasks.task_id h) id) as [E|_].
    + exfalso. apply (Hl h); [now left|exact E].
    + apply IH. intros x Hx. apply Hl. now right.
Qed.

(** X9 -- insert_task: when json.dumps returns (or the payload is falsy,
    so that it is not called), the engine carries out the INSERT and the
    sequence hands out an id no row has, the call returns that id,
    appends one row with it, status 'queued', no error and no completion
    time, leaves the earlier rows as they were and keeps the key unique;
    a falsy payload (None or the empty dict) is stored as NULL.  When the
    engine does not carry out the INSERT, or json.dumps raises, the call
    returns None and the table is unchanged. *)
Theorem insert_task_fresh (json_dumps : Tasks.Payload -> outcome string)
        (now new_id : Z) (task_type : string) (payload : option Tasks.Payload)
        (db : Tasks.Db) :
  Tasks.well_formed db ->
  (forall x, In x (Tasks.rows db) -> Tasks.task_id x <> new_id) ->
  (forall param,
     Tasks.payload_param json_dumps payload = Returned param ->
     exists r,
       Tasks.insert_task json_dumps true now new_id task_type payload db
       = ({| Tasks.rows := Tasks.rows db ++ [r] |}, Some new_id) /\
       Tasks.task_id r = new_id /\
       Tasks.task_type r = Some task_type /\
       Tasks.payload r = param /\
       Tasks.status r = Some "queued"%string /\
       Tasks.error_message r = None /\ Tasks.completed_at r = None /\
       Tasks.attempts r = 0 /\
       (Tasks.payload_truthy payload = false -> Tasks.payload r = None) /\
       Tasks.lookup new_id
         (fst (Tasks.insert_task json_dumps true now new_id task_type payload db))
       = Some r /\
       (forall id' r', Tasks.lookup id' db = Some r' ->
          Tasks.lookup id'
            (fst (Tasks.insert_task json_dumps true now new_id task_type
                                    payload db)) = Some r') /\
       Tasks.well_formed
         (fst (Tasks.insert_task json_dumps true now new_id task_type payload db))) /\
  Tasks.insert_task json_dumps false now new_id task_type payload db = (db, None) /\
  (Tasks.payload_param json_dumps payload = Raised ->
   forall executes,
     Tasks.insert_task json_dumps executes now new_id task_type payload db
     = (db, None)) /\
  (Tasks.payload_truthy payload = false ->
   Tasks.payload_param json_dumps payload = Returned None).
Proof.
  intros ND Hfresh. split; [|split; [|split]].
  - intros param Hparam.
    exists (Tasks.insert_row now new_id task_type param).
    unfold Tasks.insert_task. rewrite Hparam. cbn [fst].
    split; [reflexivity|]. split; [reflexivity|]. split; [reflexivity|].
    split; [reflexivity|]. split; [reflexivity|]. split; [reflexivity|].
    split; [reflexivity|]. split; [reflexivity|]. split; [|split; [|split]].
    + intros Hfalsy. cbn [Tasks.payload Tasks.insert_row].
      destruct payload as [[|item items]|]; simpl in Hfalsy, Hparam;
        try discriminate; now injection Hparam as <-.
    + unfold Tasks.lookup. cbn [Tasks.rows].
      now apply tasks_lookup_app_fresh.
    + intros id' r' Hr'. unfold Tasks.lookup in *. cbn [Tasks.rows].
      now apply find_app_found.
    + unfold Tasks.well_formed in *. cbn [Tasks.rows].
      rewrite map_app. cbn [map Tasks.task_id Tasks.insert_row].
      apply Permutation_NoDup
        with (l := new_id :: map Tasks.task_id (Tasks.rows db)).
      * apply Permutation_cons_append.
      * constructor; [|exact ND]. rewrite in_map_iff. intros [x [E Hx]].
        now apply (Hfresh x).
  - unfold Tasks.insert_task.
    now destruct (Tasks.payload_param json_dumps payload).
  - intros Hraised executes. unfold Tasks.insert_task. now rewrite Hraised.
  - intros Hfalsy. destruct payload as [[|item items]|]; simpl in *;
      try reflexivity; discriminate.
Qed.

Lemma sample_tasks_well_formed : Tasks.well_formed sample_tasks.
Proof.
  unfold Tasks.well_formed. simpl.
  repeat constructor; simpl; intuition discriminate.
Qed.

Lemma sample_tasks_fresh (x : Tasks.Task) :
  In x (Tasks.rows sample_tasks) -> Tasks.task_id x <> 3.
Proof. simpl. intros [<-|[<-|[]]]; simpl; discriminate. Qed.

Lemma insert_task_fresh_witness :
  (Tasks.well_formed sample_tasks /\
   (forall x, In x (Tasks.rows sample_tasks) -> Tasks.task_id x <> 3) /\
   Tasks.payload_param sample_dumps (Some sample_payload)
   = Returned (Some "{cluster_id: 4}"%string)) /\
  exists r,
    Tasks.insert_task sample_dumps true 10 3 "scrape_area"%string
                      (Some sample_payload) sample_tasks
    = ({| Tasks.rows := Tasks.rows sample_tasks ++ [r] |}, Some 3) /\
    Tasks.task_id r = 3 /\
    Tasks.payload r = Some "{cluster_id: 4}"%string /\
    Tasks.status r = Some "queued"%string.
Proof.
  split; [split; [exact sample_tasks_well_formed|
                  split; [exact sample_tasks_fresh|reflexivity]]|].
  destruct (proj1 (insert_task_fresh sample_dumps 10 3 "scrape_area"%string
                     (Some sample_payload) sample_tasks
                     sample_tasks_well_formed sample_tasks_fresh)
              (Some "{cluster_id: 4}"%string) eq_refl)
    as [r [H1 [H2 [_ [H4 [H5 _]]]]]].
  exists r. repeat split; assumption.
Defined.

Lemma update_row_id (now id : Z) (s : string) (e : option string) (r : Tasks.Task) :
  Tasks.task_id (Tasks.update_row now id s e r) = Tasks.task_id r.
Proof. unfold Tasks.update_row. now destruct (Tasks.task_id r =? id). Qed.

(** X10 -- Frame of update_task_status: when the engine carries out the
    UPDATE, the call keeps every row in place; a row with another id is
    unchanged; the row with the id gets the new status, the new error
    message (NULL when none is passed, whatever it held) and updated_at,
    its completed_at becomes the clock for 'completed' and 'failed' and
    is kept for any other status, and its task_type, payload, attempts,
    created_at and started_at are never touched.  When the engine does
    not carry it out (no connection, a status that does not fit the
    column), the table is unchanged and the call returns False; and when
    no row has the id, the table is unchanged as well. *)
Theorem update_task_status_frame (no_result_set : outcome (list Z))
        (now id : Z) (new_status : string) (new_error : option string)
        (db : Tasks.Db) (i : nat) (r : Tasks.Task) :
  nth_error (Tasks.rows db) i = Some r ->
  (exists r',
    nth_error
      (Tasks.rows (fst (Tasks.update_task_status no_result_set true now id
                          new_status new_error db))) i = Some r' /\
    (Tasks.task_id r <> id -> r' = r) /\
    (Tasks.task_id r = id ->
       Tasks.status r' = Some new_status /\
       Tasks.error_message r' = new_error /\
       Tasks.updated_at r' = Some now /\
       (Tasks.terminal new_status = true -> Tasks.completed_at r' = Some now) /\
       (Tasks.terminal new_status = false ->
        Tasks.completed_at r' = Tasks.completed_at r)) /\
    Tasks.task_id r' = Tasks.task_id r /\
    Tasks.task_type r' = Tasks.task_type r /\
    Tasks.payload r' = Tasks.payload r /\
    Tasks.attempts r' = Tasks.attempts r /\
    Tasks.created_at r' = Tasks.created_at r /\
    Tasks.started_at r' = Tasks.started_at r) /\
  List.length
    (Tasks.rows (fst (Tasks.update_task_status no_result_set true now id
                        new_status new_error db)))
  = List.length (Tasks.rows db) /\
  Tasks.update_task_status no_result_set false now id new_status new_error db
  = (db, false) /\
  ((forall x, In x (Tasks.rows db) -> Tasks.task_id x <> id) ->
   forall executes,
     fst (Tasks.update_task_status no_result_set executes now id new_status
                                   new_error db) = db).
Proof.
  intros Hi. split; [|split; [|split]].
  - exists (Tasks.update_row now id new_status new_error r).
    split; [simpl; now apply map_nth_error|].
    unfold Tasks.update_row.
    destruct (Z.eqb_spec (Tasks.task_id r) id) as [E|E]; simpl.
    + repeat split; auto; try contradiction.
      * intros ->. reflexivity.
      * intros ->. reflexivity.
    + repeat split; auto; contradiction.
  - simpl. apply length_map.
  - reflexivity.
  - intros Hno [|]; [|reflexivity].
    destruct db as [rows]. simpl in *. f_equal.
    rewrite <- (map_id rows) at 2. apply map_ext_in. intros x Hx.
    unfold Tasks.update_row.
    destruct (Z.eqb_spec (Tasks.task_id x) id) as [E|E]; [|reflexivity].
    exfalso. now apply (Hno x).
Qed.

Lemma update_task_status_frame_witness :
  nth_error (Tasks.rows sample_tasks) 1
  = Some (Tasks.mkTask 2 (Some "scrape_area"%string) None
            (Some "queued"%string) 0 (Some "earlier"%string) (Some 6) (Some 6)
            None None) /\
  exists r',
    nth_error
      (Tasks.rows (fst (Tasks.update_task_status Raised true 20 2
                          "completed"%string None sample_tasks))) 1
    = Some r' /\
    Tasks.status r' = Some "completed"%string /\
    Tasks.error_message r' = None /\
    Tasks.completed_at r' = Some 20 /\
    Tasks.created_at r' = Some 6.
Proof.
  split; [reflexivity|].
  destruct (proj1 (update_task_status_frame Raised 20 2 "completed"%string None
                     sample_tasks 1 _ eq_refl))
    as [r' [H1 [_ [H3 [_ [_ [_ [_ [H8 _]]]]]]]]].
  destruct (H3 eq_refl) as [Hs [He [_ [Hc _]]]].
  exists r'. split; [exact H1|]. split; [exact Hs|]. split; [exact He|].
  split; [exact (Hc eq_refl)|exact H8].
Defined.

Lemma tasks_lookup_update (no_result_set : outcome (list Z)) (now id id' : Z)
      (s : string) (e : option string) (db : Tasks.Db) :
  Tasks.lookup id'
    (fst (Tasks.update_task_status no_result_set true now id s e db))
  = option_map (Tasks.update_row now id s e) (Tasks.lookup id' db).
Proof.
  unfold Tasks.lookup. simpl.
  induction (Tasks.rows db) as [|h l IH]; simpl; [reflexivity|].
  rewrite update_row_id. now destruct (Tasks.task_id h =? id').
Qed.

(** X12 -- The history a task keeps: whatever update_task_status calls
    follow, a task that is in the log stays in it, a completion time once
    set is never cleared (also when the status goes back to a
    non-terminal one), and created_at, attempts, started_at and payload
    stay as they were: no call counts an attempt or records a start. *)
Theorem task_history_kept (no_result_set : outcome (list Z))
        (calls : list (Z * Z * string * option string)) (db : Tasks.Db)
        (id : Z) (r : Tasks.Task) :
  Tasks.lookup id db = Some r ->
  exists r',
    Tasks.lookup id (task_updates no_result_set calls db) = Some r' /\
    (Tasks.completed_at r <> None -> Tasks.completed_at r' <> None) /\
    Tasks.created_at r' = Tasks.created_at r /\
    Tasks.attempts r' = Tasks.attempts r /\
    Tasks.started_at r' = Tasks.started_at r /\
    Tasks.payload r' = Tasks.payload r.
Proof.
  revert db r. induction calls as [|[[[now id0] s] e] calls IH]; intros db r H.
  - exists r. simpl. repeat split; auto.
  - simpl.
    pose proof (tasks_lookup_update no_result_set now id0 id s e db) as L.
    rewrite H in L. simpl in L.
    destruct (IH _ _ L) as [r' [H1 [H2 [H3 [H4 [H5 H6]]]]]].
    exists r'. split; [exact H1|].
    unfold Tasks.update_row in *.
    destruct (Tasks.task_id r =? id0); simpl in *; auto.
    repeat split; auto. intros Hc. apply H2.
    destruct (Tasks.terminal s); [discriminate|exact Hc].
Qed.

Lemma task_history_kept_witness :
  exists r',
    Tasks.lookup 1
      (task_updates Raised [(20, 1, "processing"%string, None)] sample_tasks)
    = Some r' /\
    Tasks.created_at r' = Some 5.
Proof.
  destruct (task_history_kept Raised [(20, 1, "processing"%string, None)]
              sample_tasks 1 _ eq_refl) as [r' [H1 [_ [H3 _]]]].
  exists r'. split; [exact H1|exact H3].
Defined.

(** X13 -- A task's life: on a log with unique keys, when json.dumps
    returns for the payload, the sequence hands out an id no row has and
    the engine carries out the three statements, insert_task followed by
    update_task_status to 'processing' and then to 'completed' (or
    'failed') leaves the new task with that status, the error message of
    the last call, completed_at and updated_at at the last clock,
    created_at at the first, attempts 0 and no started_at; the tasks that
    were there before are as they were. *)
Theorem task_life (json_dumps : Tasks.Payload -> outcome string)
        (no_result_set : outcome (list Z)) (now1 now2 now3 id : Z)
        (task_type last_status : string) (payload : option Tasks.Payload)
        (param : option string) (last_error : option string) (db : Tasks.Db) :
  Tasks.well_formed db -> Tasks.terminal last_status = true ->
  (forall x, In x (Tasks.rows db) -> Tasks.task_id x <> id) ->
  Tasks.payload_param json_dumps payload = Returned param ->
  let final :=
    task_updates no_result_set
      [(now2, id, "processing"%string, None); (now3, id, last_status, last_error)]
      (fst (Tasks.insert_task json_dumps true now1 id task_type payload db)) in
  snd (Tasks.insert_task json_dumps true now1 id task_type payload db) = Some id /\
  Tasks.lookup id final
  = Some {| Tasks.task_id := id;
            Tasks.task_type := Some task_type;
            Tasks.payload := param;
            Tasks.status := Some last_status;
            Tasks.attempts := 0;
            Tasks.error_message := last_error;
            Tasks.created_at := Some now1;
            Tasks.updated_at := Some now3;
            Tasks.started_at := None;
            Tasks.completed_at := Some now3 |} /\
  (forall id' r, Tasks.lookup id' db = Some r -> Tasks.lookup id' final = Some r).
Proof.
  intros ND Hterm Hfresh Hparam final.
  assert (E0 : Tasks.insert_task json_dumps true now1 id task_type payload db
               = ({| Tasks.rows :=
                       Tasks.rows db
                       ++ [Tasks.insert_row now1 id task_type param] |},
                  Some id)).
  { unfold Tasks.insert_task. now rewrite Hparam. }
  unfold final. rewrite E0. cbn [fst snd]. split; [reflexivity|].
  assert (L0 : Tasks.lookup id
                 {| Tasks.rows :=
                      Tasks.rows db ++ [Tasks.insert_row now1 id task_type param] |}
               = Some (Tasks.insert_row now1 id task_type param)).
  { unfold Tasks.lookup. cbn [Tasks.rows]. now apply tasks_lookup_app_fresh. }
  split.
  - unfold task_updates. cbn [fold_left].
    rewrite !tasks_lookup_update, L0. cbn [option_map].
    unfold Tasks.update_row at 2. cbn [Tasks.task_id Tasks.insert_row].
    rewrite Z.eqb_refl.
    unfold Tasks.update_row. cbn [Tasks.task_id].
    rewrite Z.eqb_refl, Hterm. reflexivity.
  - intros id' r Hr. destruct (tasks_lookup_In _ _ _ Hr) as [Hin Eid].
    assert (Hne : id' <> id) by (rewrite <- Eid; now apply Hfresh).
    unfold task_updates. cbn [fold_left].
    rewrite !tasks_lookup_update.
    assert (L1 : Tasks.lookup id'
                   {| Tasks.rows :=
                        Tasks.rows db
                        ++ [Tasks.insert_row now1 id task_type param] |}
                 = Some r).
    { unfold Tasks.lookup in *. cbn [Tasks.rows]. now apply find_app_found. }
    rewrite L1. simpl. unfold Tasks.update_row.
    rewrite Eid. destruct (Z.eqb_spec id' id) as [E|_]; [contradiction|].
    simpl. rewrite Eid. destruct (Z.eqb_spec id' id) as [E|_]; [contradiction|].
    reflexivity.
Qed.

Lemma task_life_witness :
  (Tasks.well_formed sample_tasks /\
   Tasks.terminal "failed" = true /\
   (forall x, In x (Tasks.rows sample_tasks) -> Tasks.task_id x <> 3) /\
   Tasks.payload_param sample_dumps (Some sample_payload)
   = Returned (Some "{cluster_id: 4}"%string)) /\
  Tasks.lookup 3
    (task_updates Raised
       [(20, 3, "processing"%string, None); (30, 3, "failed"%string, Some "boom"%string)]
       (fst (Tasks.insert_task sample_dumps true 10 3
               "scrape_area"%string (Some sample_payload) sample_tasks)))
  = Some (Tasks.mkTask 3 (Some "scrape_area"%string)
            (Some "{cluster_id: 4}"%string) (Some "failed"%string)
            0 (Some "boom"%string) (Some 10) (Some 30) None (Some 30)).
Proof.
  split; [split; [exact sample_tasks_well_formed|
          split; [reflexivity|split; [exact sample_tasks_fresh|reflexivity]]]|].
  exact (proj1 (proj2 (task_life sample_dumps Raised 10 20 30 3
                         "scrape_area"%string "failed"%string
                         (Some sample_payload) (Some "{cluster_id: 4}"%string)
                         (Some "boom"%string) sample_tasks
                         sample_tasks_well_formed eq_refl
                         sample_tasks_fresh eq_refl))).
Defined.

(** ** The category of a place *)

Lemma dict_get_In {V : Type} (k : string) (d : list (string * V)) (v : V) :
  Listings.dict_get k d = Some v -> In (k, v) d.
Proof.
  induction d as [|[k' v'] d IH]; simpl; [discriminate|].
  destruct (String.eqb_spec k k') as [->|_].
  - intros [= ->]. now left.
  - intros H. right. now apply IH.
Qed.

Lemma category_ids_range (k : string) (info : string * Z) :
  Listings.dict_get k Listings.GOOGLE_TO_DIRECTORY_CATEGORY = Some info ->
  93 <= snd info <= 153.
Proof.
  intros H. apply dict_get_In in H.
  assert (F : Forall (fun e : string * (string * Z) => 93 <= snd (snd e) <= 153)
                Listings.GOOGLE_TO_DIRECTORY_CATEGORY).
  { unfold Listings.GOOGLE_TO_DIRECTORY_CATEGORY.
    repeat constructor; simpl; lia. }
  rewrite Forall_forall in F. exact (F _ H).
Qed.

Lemma category_info_spec (place_types : list string) :
  match Listings.category_info place_types with
  | Some info =>
      exists before place_type after,
        place_types = before ++ place_type :: after /\
        (forall x, In x before ->
           Listings.dict_get x Listings.GOOGLE_TO_DIRECTORY_CATEGORY = None) /\
        Listings.dict_get place_type Listings.GOOGLE_TO_DIRECTORY_CATEGORY
        = Some info
  | None =>
      forall x, In x place_types ->
        Listings.dict_get x Listings.GOOGLE_TO_DIRECTORY_CATEGORY = None
  end.
Proof.
  induction place_types as [|ty rest IH]; [intros x []|].
  cbn [Listings.category_info].
  destruct (Listings.dict_get ty Listings.GOOGLE_TO_DIRECTORY_CATEGORY)
    as [info|] eqn:E.
  - exists [], ty, rest. repeat split; auto. intros x [].
  - destruct (Listings.category_info rest) as [info|].
    + destruct IH as [before [pt [after [E1 [E2 E3]]]]].
      exists (ty :: before), pt, after. repeat split; auto.
      * simpl. now rewrite E1.
      * intros x [<-|Hx]; auto.
    + intros x [<-|Hx]; auto.
Qed.

Lemma default_category_range (place_types : list string) (n : Z) :
  Listings.default_category place_types = Some n -> 93 <= n <= 153.
Proof.
  unfold Listings.default_category.
  pose proof (category_info_spec place_types) as S.
  destruct (Listings.category_info place_types) as [info|]; [|discriminate].
  destruct S as [_ [pt [_ [_ [_ E3]]]]]. intros [= <-].
  exact (category_ids_range pt info E3).
Qed.

(** X14 -- The category of a place: default_category is the id that
    GOOGLE_TO_DIRECTORY_CATEGORY gives the first of the place's types that
    is a key of the table (later types are not looked at); it is NULL
    exactly when no type of the place is a key; and an id, when there is
    one, lies between 93 and 153. *)
Theorem category_first_match (place_types : list string) :
  (forall before place_type after info,
     place_types = before ++ place_type :: after ->
     (forall x, In x before ->
        Listings.dict_get x Listings.GOOGLE_TO_DIRECTORY_CATEGORY = None) ->
     Listings.dict_get place_type Listings.GOOGLE_TO_DIRECTORY_CATEGORY
     = Some info ->
     Listings.default_category place_types = Some (snd info)) /\
  (Listings.default_category place_types = None <->
   forall x, In x place_types ->
     Listings.dict_get x Listings.GOOGLE_TO_DIRECTORY_CATEGORY = None) /\
  (forall n, Listings.default_category place_types = Some n -> 93 <= n <= 153).
Proof.
  unfold Listings.default_category.
  pose proof (category_info_spec place_types) as S.
  split; [|split].
  - intros before pt after info -> Hb Hpt. clear S.
    induction before as [|b before IH]; cbn [app Listings.category_info].
    + now rewrite Hpt.
    + rewrite (Hb b) by now left. apply IH. intros x Hx. apply Hb. now right.
  - destruct (Listings.category_info place_types) as [info|].
    + destruct S as [before [pt [after [E1 [E2 E3]]]]].
      split; [discriminate|]. intros H. exfalso.
      rewrite H in E3; [discriminate|]. rewrite E1. apply in_or_app.
      right. now left.
    + tauto.
  - intros n Hn. apply (default_category_range place_types).
    unfold Listings.default_category. exact Hn.
Qed.

(** X15 -- post_category follows default_category: it is NULL exactly
    when default_category is, and otherwise it is the id in decimal
    between two commas (",99," for a jeweler); no id of the table is the
    falsy 0. *)
Theorem post_category_follows (place_types : list string) :
  (Listings.post_category (Listings.default_category place_types) = None <->
   Listings.default_category place_types = None) /\
  (forall n, Listings.default_category place_types = Some n ->
     Listings.post_category (Listings.default_category place_types)
     = Some ("," ++ Listings.format_int n ++ ",")%string) /\
  Listings.post_category (Listings.default_category ["point_of_interest"; "Jeweler"]%string)
  = Some ",99,"%string.
Proof.
  pose proof (default_category_range place_types) as R.
  split; [|split; [|reflexivity]].
  - destruct (Listings.default_category place_types) as [n|] eqn:E;
      [|split; reflexivity].
    specialize (R n eq_refl). unfold Listings.post_category.
    destruct (Z.eqb_spec n 0) as [->|_]; [lia|].
    split; discriminate.
  - intros n E. rewrite E. specialize (R n E). unfold Listings.post_category.
    destruct (Z.eqb_spec n 0) as [->|_]; [lia|reflexivity].
Qed.

(** ** Saving a place *)

Section SaveFacts.
Variable strip : string -> string.
Variable default_others : list (option string).

Lemma upsert_no_conflict (new : Listings.Listing) (rows : list Listings.Listing) :
  (forall r, In r rows -> Listings.conflicts new r = false) ->
  Listings.upsert new rows = (rows ++ [new], Listings.listing_id new).
Proof.
  induction rows as [|old rest IH]; intros H; [reflexivity|].
  simpl. rewrite (H old) by now left.
  rewrite IH by (intros r Hr; apply H; now right). reflexivity.
Qed.

Lemma upsert_conflict (new old : Listings.Listing)
      (l1 l2 : list Listings.Listing) :
  (forall r, In r l1 -> Listings.conflicts new r = false) ->
  Listings.conflicts new old = true ->
  Listings.upsert new (l1 ++ old :: l2)
  = (l1 ++ Listings.do_update new old :: l2, Listings.listing_id old).
Proof.
  intros H Hc. induction l1 as [|h l1 IH]; simpl.
  - now rewrite Hc.
  - rewrite (H h) by now left.
    rewrite IH by (intros r Hr; apply H; now right). reflexivity.
Qed.

Lemma upsert_cases (new : Listings.Listing) (rows : list Listings.Listing) :
  (forall r, In r rows -> Listings.conflicts new r = false) \/
  exists l1 old l2,
    rows = l1 ++ old :: l2 /\
    (forall r, In r l1 -> Listings.conflicts new r = false) /\
    Listings.conflicts new old = true.
Proof.
  induction rows as [|h rest IH].
  - left. intros r [].
  - destruct (Listings.conflicts new h) eqn:E.
    + right. exists [], h, rest. repeat split; auto. intros r [].
    + destruct IH as [IH|[l1 [old [l2 [E1 [E2 E3]]]]]].
      * left. intros r [<-|Hr]; auto.
      * right. exists (h :: l1), old, l2. repeat split; auto.
        -- simpl. now rewrite E1.
        -- intros r [<-|Hr]; auto.
Qed.

Lemma conflicts_iff (new old : Listings.Listing) :
  Listings.conflicts new old = true <->
  exists g, Listings.google_place_id new = Some g /\
            Listings.google_place_id old = Some g.
Proof.
  unfold Listings.conflicts.
  destruct (Listings.google_place_id new) as [g|],
           (Listings.google_place_id old) as [g'|]; split;
    try discriminate; try (intros [x [H1 H2]]; discriminate).
  - intros H. apply String.eqb_eq in H. subst. eauto.
  - intros [x [[= ->] [= ->]]]. apply String.eqb_refl.
Qed.

Lemma place_ids_In (g : string) (rows : list Listings.Listing) :
  In g (Listings.place_ids rows) <->
  exists r, In r rows /\ Listings.google_place_id r = Some g.
Proof.
  induction rows as [|h rest IH]; simpl.
  - split; [intros []|intros [r [[] _]]].
  - destruct (Listings.google_place_id h) as [g'|] eqn:E; simpl; rewrite IH;
      split.
    + intros [->|[r [H1 H2]]]; [exists h; auto|exists r; auto].
    + intros [r [[<-|H1] H2]]; [left; congruence|right; eauto].
    + intros [r [H1 H2]]. exists r; auto.
    + intros [r [[<-|H1] H2]]; [congruence|eauto].
Qed.

Lemma place_ids_app (l1 l2 : list Listings.Listing) :
  Listings.place_ids (l1 ++ l2) = Listings.place_ids l1 ++ Listings.place_ids l2.
Proof.
  induction l1 as [|h l1 IH]; simpl; [reflexivity|].
  destruct (Listings.google_place_id h); simpl; now rewrite IH.
Qed.

Lemma no_conflict_place_ids (new : Listings.Listing) (g : string)
      (l : list Listings.Listing) :
  Listings.google_place_id new = Some g ->
  (forall r, In r l -> Listings.conflicts new r = false) ->
  ~ In g (Listings.place_ids l).
Proof.
  intros Hg Hl Hin. apply place_ids_In in Hin. destruct Hin as [r [H1 H2]].
  assert (C : Listings.conflicts new r = true).
  { apply conflicts_iff. eauto. }
  rewrite (Hl r H1) in C. discriminate.
Qed.

(** What a proposed row holds, and that the place alone decides whether
    there is one. *)
Lemma proposed_fields (now new_id : Z) (pd : Listings.PlaceData) (pc : Z)
      (new : Listings.Listing) :
  Listings.proposed strip default_others now new_id pd pc = Returned new ->
  Listings.listing_id new = new_id /\
  Listings.google_place_id new = Listings.place_id pd /\
  Listings.place_id pd <> None /\ Listings.name pd <> None /\
  Listings.formatted_address pd <> None /\ Listings.location pd <> None /\
  Listings.l_name new = Listings.name pd /\
  Listings.postcode_id new = Some pc /\
  Listings.post_type new = Some "gd_place"%string /\
  Listings.created_at new = Some now /\
  Listings.updated_at new = Some now /\
  forall now' new_id' pc',
    exists new',
      Listings.proposed strip default_others now' new_id' pd pc' = Returned new' /\
      forall old, Listings.without_updated_at (Listings.do_update new' old)
                  = Listings.without_updated_at (Listings.do_update new old).
Proof.
  unfold Listings.proposed, Listings.bind, Listings.required.
  repeat match goal with
         | |- context [match Listings.first_component ?t ?c with _ => _ end] =>
             destruct (Listings.first_component t c); [|discriminate]
         end.
  destruct (Listings.place_id pd); [|discriminate].
  destruct (Listings.name pd); [|discriminate].
  destruct (Listings.formatted_address pd); [|discriminate].
  destruct (Listings.location pd); [|discriminate].
  intros [= <-]. simpl. repeat split; try discriminate.
  intros now' new_id' pc'. eexists. split; reflexivity.
Qed.

Lemma proposed_needs_keys (now new_id : Z) (pd : Listings.PlaceData) (pc : Z) :
  Listings.place_id pd = None \/ Listings.name pd = None \/
  Listings.formatted_address pd = None \/ Listings.location pd = None ->
  Listings.proposed strip default_others now new_id pd pc = Raised.
Proof.
  intros H.
  destruct (Listings.proposed strip default_others now new_id pd pc)
    as [new|] eqn:E; [|reflexivity].
  apply proposed_fields in E.
  destruct E as [_ [_ [H1 [H2 [H3 [H4 _]]]]]]. tauto.
Qed.
End SaveFacts.


(** X16 -- What save_place_to_db needs: when the place lacks place_id,
    name, formatted_address or its location, or when the engine does not
    carry out the INSERT, the call returns False; and whenever it returns
    False the table is exactly as it was. *)
Theorem save_place_failure (strip : string -> string)
        (default_others : list (option string)) (executes : bool)
        (now new_id : Z) (pd : Listings.PlaceData) (pc : Z)
        (rows : list Listings.Listing) :
  (Listings.place_id pd = None \/ Listings.name pd = None \/
   Listings.formatted_address pd = None \/ Listings.location pd = None \/
   executes = false ->
   Listings.save_place_to_db strip default_others executes now new_id pd pc rows
   = (rows, false)) /\
  (snd (Listings.save_place_to_db strip default_others executes now new_id pd
          pc rows) = false ->
   fst (Listings.save_place_to_db strip default_others executes now new_id pd
          pc rows) = rows).
Proof.
  unfold Listings.save_place_to_db. split.
  - intros H.
    destruct (Listings.proposed strip default_others now new_id pd pc)
      as [new|] eqn:E; [|reflexivity].
    destruct executes; [|reflexivity]. exfalso.
    apply proposed_fields in E.
    destruct E as [_ [_ [H1 [H2 [H3 [H4 _]]]]]].
    destruct H as [H|[H|[H|[H|H]]]]; try tauto. discriminate.
  - destruct (Listings.proposed strip default_others now new_id pd pc);
      [|reflexivity].
    destruct executes; [discriminate|reflexivity].
Qed.

(** X17 -- A successful save is an upsert on google_place_id: either no
    row had the place's id and one row is appended, with the new
    listing_id and the caller's postcode_id; or the first row with that
    id is rewritten in place, keeping its listing_id, its postcode_id
    (the caller's is ignored), its post_type, created_at and the columns
    the INSERT does not name, and taking the new name and updated_at;
    every other row is as it was. *)
Theorem save_place_upsert (strip : string -> string)
        (default_others : list (option string)) (now new_id : Z)
        (pd : Listings.PlaceData) (pc : Z) (rows rows' : list Listings.Listing) :
  Listings.save_place_to_db strip default_others true now new_id pd pc rows
  = (rows', true) ->
  exists g,
    Listings.place_id pd = Some g /\
    ((~ In g (Listings.place_ids rows) /\
      exists new,
        rows' = rows ++ [new] /\ Listings.listing_id new = new_id /\
        Listings.google_place_id new = Some g /\
        Listings.postcode_id new = Some pc /\
        Listings.post_type new = Some "gd_place"%string)
     \/
     (exists l1 old l2 r',
        rows = l1 ++ old :: l2 /\ rows' = l1 ++ r' :: l2 /\
        ~ In g (Listings.place_ids l1) /\
        Listings.google_place_id old = Some g /\
        Listings.google_place_id r' = Some g /\
        Listings.listing_id r' = Listings.listing_id old /\
        Listings.postcode_id r' = Listings.postcode_id old /\
        Listings.post_type r' = Listings.post_type old /\
        Listings.created_at r' = Listings.created_at old /\
        Listings.others r' = Listings.others old /\
        Listings.l_name r' = Listings.name pd /\
        Listings.updated_at r' = Some now)).
Proof.
  unfold Listings.save_place_to_db.
  destruct (Listings.proposed strip default_others now new_id pd pc)
    as [new|] eqn:E; [|discriminate].
  intros [= <-].
  destruct (proposed_fields strip default_others _ _ _ _ _ E)
    as [F1 [F2 [F3 [_ [_ [_ [F7 [F8 [F9 [_ [F11 _]]]]]]]]]]].
  destruct (Listings.place_id pd) as [g|] eqn:Eg; [|congruence].
  exists g. split; [reflexivity|].
  assert (Hconf : forall r, Listings.conflicts new r = true <->
                            Listings.google_place_id r = Some g).
  { intros r. rewrite conflicts_iff. rewrite F2. split.
    - intros [x [[= ->] H]]. exact H.
    - intros H. eauto. }
  assert (Hnone : forall l, (forall r, In r l -> Listings.conflicts new r = false) ->
                            ~ In g (Listings.place_ids l)).
  { intros l Hl Hin. apply place_ids_In in Hin. destruct Hin as [r [H1 H2]].
    apply Hconf in H2. rewrite (Hl r H1) in H2. discriminate. }
  destruct (upsert_cases new rows) as [Hno|[l1 [old [l2 [E1 [E2 E3]]]]]].
  - left. split; [now apply Hnone|].
    rewrite (upsert_no_conflict new rows Hno). exists new. simpl.
    repeat split; auto.
  - right. exists l1, old, l2, (Listings.do_update new old).
    rewrite E1, (upsert_conflict new old l1 l2 E2 E3). simpl.
    apply Hconf in E3. repeat split; auto.
Qed.

Lemma save_place_upsert_witness :
  Listings.save_place_to_db (fun s => s) [] true 50 9 sample_place 8
                            [sample_listing]
  = ([Listings.do_update
        (match Listings.proposed (fun s => s) [] 50 9 sample_place 8 with
         | Returned new => new
         | Raised => sample_listing
         end) sample_listing], true) /\
  exists g, Listings.place_id sample_place = Some g.
Proof.
  assert (H : Listings.save_place_to_db (fun s => s) [] true 50 9 sample_place 8
                [sample_listing]
              = ([Listings.do_update
                    (match Listings.proposed (fun s => s) [] 50 9 sample_place 8 with
                     | Returned new => new
                     | Raised => sample_listing
                     end) sample_listing], true)) by reflexivity.
  split; [exact H|].
  destruct (save_place_upsert (fun s => s) [] 50 9 sample_place 8 _ _ H)
    as [g [Hg _]].
  exists g. exact Hg.
Defined.

(** X18 -- The keys stay unique: on a table where listing_id and the
    non-NULL google_place_id are unique, a save with a listing_id the
    sequence has not handed out before leaves them unique. *)
Theorem save_place_keys_unique (strip : string -> string)
        (default_others : list (option string)) (executes : bool)
        (now new_id : Z) (pd : Listings.PlaceData) (pc : Z)
        (rows : list Listings.Listing) :
  Listings.well_formed rows ->
  (forall r, In r rows -> Listings.listing_id r <> new_id) ->
  Listings.well_formed
    (fst (Listings.save_place_to_db strip default_others executes now new_id
            pd pc rows)).
Proof.
  intros [ND1 ND2] Hfresh. unfold Listings.save_place_to_db.
  destruct (Listings.proposed strip default_others now new_id pd pc)
    as [new|] eqn:E; [|now split].
  destruct executes; [|now split]. cbn [fst].
  destruct (proposed_fields strip default_others _ _ _ _ _ E)
    as [F1 [F2 [F3 _]]].
  destruct (Listings.place_id pd) as [g|] eqn:Eg; [|congruence].
  destruct (upsert_cases new rows) as [Hno|[l1 [old [l2 [E1 [E2 E3]]]]]].
  - rewrite (upsert_no_conflict new rows Hno). cbn [fst]. split.
    + rewrite map_app. simpl.
      apply Permutation_NoDup
        with (l := Listings.listing_id new :: map Listings.listing_id rows).
      * apply Permutation_cons_append.
      * constructor; auto. rewrite in_map_iff. intros [r [Er Hr]].
        apply (Hfresh r Hr). congruence.
    + rewrite place_ids_app. simpl. rewrite F2.
      apply Permutation_NoDup with (l := g :: Listings.place_ids rows).
      * apply Permutation_cons_append.
      * constructor; auto. now apply (no_conflict_place_ids new).
  - rewrite E1 in *. rewrite (upsert_conflict new old l1 l2 E2 E3). cbn [fst].
    split.
    + rewrite map_app in *. exact ND1.
    + rewrite place_ids_app in *. exact ND2.
Qed.

Lemma save_place_keys_unique_witness :
  Listings.well_formed
    (fst (Listings.save_place_to_db (fun s => s) [] true 50 9 sample_place 8
            [sample_listing])).
Proof.
  apply save_place_keys_unique.
  - split; simpl; repeat constructor; intros [].
  - simpl. intros r [<-|[]]. simpl. discriminate.
Defined.

(** X19 -- Saving a place again changes nothing but updated_at: after a
    successful save, a second save of the same place (with any clock, any
    sequence value and any postcode) succeeds, adds no row, and leaves
    every row as the first save left it apart from updated_at. *)
Theorem save_place_twice (strip : string -> string)
        (default_others : list (option string)) (now1 id1 pc1 now2 id2 pc2 : Z)
        (pd : Listings.PlaceData) (rows : list Listings.Listing) :
  snd (Listings.save_place_to_db strip default_others true now1 id1 pd pc1 rows)
  = true ->
  let once :=
    fst (Listings.save_place_to_db strip default_others true now1 id1 pd pc1 rows) in
  snd (Listings.save_place_to_db strip default_others true now2 id2 pd pc2 once)
  = true /\
  map Listings.without_updated_at
      (fst (Listings.save_place_to_db strip default_others true now2 id2 pd pc2 once))
  = map Listings.without_updated_at once.
Proof.
  unfold Listings.save_place_to_db.
  destruct (Listings.proposed strip default_others now1 id1 pd pc1)
    as [new|] eqn:E; [|discriminate].
  intros _. cbv zeta. cbn [fst snd].
  destruct (proposed_fields strip default_others _ _ _ _ _ E)
    as [_ [F2 [F3 [_ [_ [_ [_ [_ [_ [_ [_ F12]]]]]]]]]]].
  destruct (F12 now2 id2 pc2) as [new2 [E2 Hsame]]. rewrite E2. cbn [fst snd].
  split; [reflexivity|].
  destruct (proposed_fields strip default_others _ _ _ _ _ E2)
    as [_ [F2' _]].
  assert (Hc : forall r, Listings.conflicts new2 r = Listings.conflicts new r).
  { intros r. unfold Listings.conflicts. now rewrite F2, F2'. }
  assert (Hself : Listings.conflicts new new = true).
  { apply conflicts_iff. destruct (Listings.place_id pd) as [g|]; [|congruence].
    exists g. split; exact F2. }
  assert (Hupd : forall old,
             Listings.conflicts new (Listings.do_update new old)
             = Listings.conflicts new old) by reflexivity.
  assert (Hnew : Listings.without_updated_at (Listings.do_update new2 new)
                 = Listings.without_updated_at new).
  { rewrite Hsame. destruct new. reflexivity. }
  assert (Hold : forall old,
             Listings.without_updated_at
               (Listings.do_update new2 (Listings.do_update new old))
             = Listings.without_updated_at (Listings.do_update new old)).
  { intros old. rewrite Hsame. reflexivity. }
  destruct (upsert_cases new rows) as [Hno|[l1 [old [l2 [E1 [H1 H2]]]]]].
  - rewrite (upsert_no_conflict new rows Hno). cbn [fst].
    rewrite (upsert_conflict new2 new rows []).
    + cbn [fst]. rewrite !map_app. simpl. now rewrite Hnew.
    + intros r Hr. rewrite Hc. now apply Hno.
    + now rewrite Hc.
  - rewrite E1, (upsert_conflict new old l1 l2 H1 H2). cbn [fst].
    rewrite (upsert_conflict new2 (Listings.do_update new old) l1 l2).
    + cbn [fst]. rewrite !map_app. simpl. now rewrite Hold.
    + intros r Hr. rewrite Hc. now apply H1.
    + now rewrite Hc, Hupd.
Qed.

Lemma save_place_twice_witness :
  map Listings.without_updated_at
      (fst (Listings.save_place_to_db (fun s => s) [] true 60 10 sample_place 3
              (fst (Listings.save_place_to_db (fun s => s) [] true 50 9
                      sample_place 8 [sample_listing]))))
  = map Listings.without_updated_at
        (fst (Listings.save_place_to_db (fun s => s) [] true 50 9 sample_place 8
                [sample_listing])).
Proof.
  exact (proj2 (save_place_twice (fun s => s) [] 50 9 8 60 10 3 sample_place
                  [sample_listing] eq_refl)).
Defined.

(** ** Searching one cluster *)

Section ProcessFacts.
Variable World : Type.
Variable search_places :
  World -> Z -> Z -> string -> World * outcome (list Places.Place).
Variable get_place_details :
  World -> string -> World * outcome (option Listings.PlaceData).
Variable engine : World -> World * (bool * Z * Z).
Variable strip : string -> string.
Variable default_others : list (option string).
Variable no_result_set : outcome (list Z).

Lemma upsert_length (new : Listings.Listing) (rows : list Listings.Listing) :
  (List.length rows <= List.length (fst (Listings.upsert new rows))
   <= S (List.length rows))%nat.
Proof.
  destruct (upsert_cases new rows) as [Hno|[l1 [old [l2 [E1 [E2 E3]]]]]].
  - rewrite (upsert_no_conflict new rows Hno). simpl.
    rewrite length_app. simpl. lia.
  - rewrite E1, (upsert_conflict new old l1 l2 E2 E3). simpl.
    rewrite !length_app. simpl. lia.
Qed.

Lemma save_place_growth (w : World) (pd : Listings.PlaceData) (pc : Z)
      (rows : list Listings.Listing) :
  match Places.save_place World engine strip default_others w pd pc rows with
  | (_, rows', saved) =>
      if saved
      then (List.length rows <= List.length rows' <= S (List.length rows))%nat
      else rows' = rows
  end.
Proof.
  unfold Places.save_place.
  destruct (Listings.proposed strip default_others 0 0 pd pc) as [p0|] eqn:E0;
    [|reflexivity].
  destruct (engine w) as [w' [[executes now] new_id]].
  unfold Listings.save_place_to_db.
  destruct (proposed_fields strip default_others _ _ _ _ _ E0)
    as [_ [_ [_ [_ [_ [_ [_ [_ [_ [_ [_ F]]]]]]]]]]].
  destruct (F now new_id pc) as [new [E _]]. rewrite E.
  destruct executes; [|reflexivity]. apply upsert_length.
Qed.

Lemma grows_refl (st : World * list Listings.Listing * Z) : grows st st.
Proof. destruct st as [[w rows] n]. unfold grows. repeat split; auto; lia. Qed.

Lemma grows_world (w w' : World) (rows : list Listings.Listing) (n : Z)
      (st' : World * list Listings.Listing * Z) :
  grows (w', rows, n) st' -> grows (w, rows, n) st'.
Proof. destruct st' as [[w2 rows2] n2]. exact (fun H => H). Qed.

Lemma grows_trans (st1 st2 st3 : World * list Listings.Listing * Z) :
  grows st1 st2 -> grows st2 st3 -> grows st1 st3.
Proof.
  destruct st1 as [[w1 r1] n1], st2 as [[w2 r2] n2], st3 as [[w3 r3] n3].
  unfold grows. intros [A1 [A2 [A3 A4]]] [B1 [B2 [B3 B4]]].
  repeat split; try lia.
  intros E. assert (n2 = n1) by lia. assert (n3 = n2) by lia.
  rewrite B4, A4; auto.
Qed.

Lemma places_loop_grows (pc : Z) (places : list Places.Place)
      (st : World * list Listings.Listing * Z) :
  grows st (Places.places_loop World get_place_details engine strip
              default_others pc places st).
Proof.
  revert st. induction places as [|place rest IH]; intros st;
    [apply grows_refl|].
  destruct st as [[w rows] n]. cbn [Places.places_loop].
  destruct (Places.place_id place) as [pid|]; [|apply IH].
  destruct (get_place_details w pid) as [w1 [[details|]|]];
    try (apply (grows_world w w1), IH).
  destruct (Places.truthy details); [|apply (grows_world w w1), IH].
  pose proof (save_place_growth w1 details pc rows) as G.
  destruct (Places.save_place World engine strip default_others w1 details pc rows)
    as [[w2 rows'] saved].
  eapply grows_trans; [|apply IH].
  unfold grows. destruct saved.
  - repeat split; lia.
  - subst rows'. repeat split; auto; lia.
Qed.

Lemma keywords_loop_grows (pc la lo : Z) (keywords : list string)
      (st : World * list Listings.Listing * Z) :
  grows st (Places.keywords_loop World search_places get_place_details engine
              strip default_others pc la lo keywords st).
Proof.
  revert st. induction keywords as [|keyword rest IH]; intros st;
    [apply grows_refl|].
  destruct st as [[w rows] n]. cbn [Places.keywords_loop].
  destruct (search_places w la lo keyword) as [w1 [places|]].
  - eapply grows_trans; [|apply IH].
    apply (grows_world w w1), places_loop_grows.
  - apply (grows_world w w1), IH.
Qed.

Lemma keywords_loop_all_raise (pc la lo : Z) (keywords : list string)
      (st : World * list Listings.Listing * Z) :
  (forall w k, snd (search_places w la lo k) = Raised) ->
  snd (Places.keywords_loop World search_places get_place_details engine
         strip default_others pc la lo keywords st) = snd st /\
  snd (fst (Places.keywords_loop World search_places get_place_details engine
              strip default_others pc la lo keywords st)) = snd (fst st).
Proof.
  intros H. revert st. induction keywords as [|keyword rest IH]; intros st;
    [split; reflexivity|].
  destruct st as [[w rows] n]. cbn [Places.keywords_loop].
  specialize (H w keyword).
  destruct (search_places w la lo keyword) as [w1 [places|]];
    [discriminate|].
  apply (IH (w1, rows, n)).
Qed.
End ProcessFacts.

(** X20 -- process_postcode never reports a failure: whatever the Places
    service and the engine do, the task log it leaves is the one it got
    with two update_task_status calls applied for the task, the first to
    'processing' and the second to 'completed', both without an error
    message; no call sets 'failed'.  When every statement is carried out,
    a task that was in the log ends 'completed' with no error message and
    a completion time, even if every search raised. *)
Theorem process_postcode_completes (World : Type)
        (search_places :
           World -> Z -> Z -> string -> World * outcome (list Places.Place))
        (get_place_details :
           World -> string -> World * outcome (option Listings.PlaceData))
        (engine : World -> World * (bool * Z * Z))
        (strip : string -> string) (default_others : list (option string))
        (no_result_set : outcome (list Z))
        (postcode latitude longitude task : Z)
        (w : World) (tasks : Tasks.Db) (rows : list Listings.Listing) :
  let tasks' :=
    snd (fst (fst (Places.process_postcode World search_places get_place_details
                     engine strip default_others no_result_set
                     postcode latitude longitude task (w, tasks, rows)))) in
  (exists ex1 now1 ex2 now2,
     tasks' =
     fst (Tasks.update_task_status no_result_set ex2 now2 task
            "completed"%string None
            (fst (Tasks.update_task_status no_result_set ex1 now1 task
                    "processing"%string None tasks)))) /\
  ((forall w0, fst (fst (snd (engine w0))) = true) ->
   forall r, Tasks.lookup task tasks = Some r ->
     exists r',
       Tasks.lookup task tasks' = Some r' /\
       Tasks.status r' = Some "completed"%string /\
       Tasks.error_message r' = None /\
       Tasks.completed_at r' <> None).
Proof.
  cbv zeta. unfold Places.process_postcode, Places.set_status.
  destruct (engine w) as [w1 [[ex1 now1] id1]] eqn:E1.
  destruct (Places.keywords_loop World search_places get_place_details engine
              strip default_others postcode latitude longitude
              Places.JEWELRY_KEYWORDS (w1, rows, 0)) as [[w2 rows2] n].
  destruct (engine w2) as [w3 [[ex2 now2] id2]] eqn:E2.
  cbn [fst snd]. split.
  - exists ex1, now1, ex2, now2. reflexivity.
  - intros Hex r Hr.
    assert (ex1 = true) as -> by (specialize (Hex w); now rewrite E1 in Hex).
    assert (ex2 = true) as -> by (specialize (Hex w2); now rewrite E2 in Hex).
    rewrite !tasks_lookup_update, Hr. cbn [option_map].
    destruct (tasks_lookup_In _ _ _ Hr) as [_ Eid].
    unfold Tasks.update_row at 2. rewrite Eid, Z.eqb_refl.
    unfold Tasks.update_row. cbn [Tasks.task_id]. rewrite Z.eqb_refl.
    eexists. split; [reflexivity|]. simpl. repeat split. discriminate.
Qed.

Lemma process_postcode_completes_witness :
  exists r',
    Tasks.lookup 2
      (snd (fst (fst (Places.process_postcode unit
                        (fun w _ _ _ => (w, Raised))
                        (fun w _ => (w, Raised))
                        (fun w => (w, (true, 40, 9)))
                        (fun s => s) [] Raised 7 0 0 2
                        (tt, sample_tasks, [sample_listing])))))
    = Some r' /\
    Tasks.status r' = Some "completed"%string.
Proof.
  destruct (proj2 (process_postcode_completes unit
              (fun w _ _ _ => (w, Raised)) (fun w _ => (w, Raised))
              (fun w => (w, (true, 40, 9))) (fun s => s) [] Raised 7 0 0 2
              tt sample_tasks [sample_listing])
              (fun _ => eq_refl) _ eq_refl) as [r' [H1 [H2 _]]].
  exists r'. split; [exact H1|exact H2].
Defined.

(** X21 -- What places_found counts: the number process_postcode returns
    is not negative and bounds the listings it added (a save that rewrote
    an existing listing is counted too); the table never shrinks; when 0
    is returned the listings are exactly as they were; and when every
    search raises, 0 is returned. *)
Theorem process_postcode_count (World : Type)
        (search_places :
           World -> Z -> Z -> string -> World * outcome (list Places.Place))
        (get_place_details :
           World -> string -> World * outcome (option Listings.PlaceData))
        (engine : World -> World * (bool * Z * Z))
        (strip : string -> string) (default_others : list (option string))
        (no_result_set : outcome (list Z))
        (postcode latitude longitude task : Z)
        (w : World) (tasks : Tasks.Db) (rows : list Listings.Listing) :
  let result :=
    Places.process_postcode World search_places get_place_details engine strip
      default_others no_result_set postcode latitude longitude task
      (w, tasks, rows) in
  0 <= snd result /\
  (List.length rows <= List.length (snd (fst result)))%nat /\
  Z.of_nat (List.length (snd (fst result)))
  <= Z.of_nat (List.length rows) + snd result /\
  (snd result = 0 -> snd (fst result) = rows) /\
  ((forall w0 k, snd (search_places w0 latitude longitude k) = Raised) ->
   snd result = 0).
Proof.
  cbv zeta. unfold Places.process_postcode, Places.set_status.
  destruct (engine w) as [w1 [[ex1 now1] id1]].
  pose proof (keywords_loop_grows World search_places get_place_details engine
                strip default_others postcode latitude longitude
                Places.JEWELRY_KEYWORDS (w1, rows, 0)) as G.
  pose proof (keywords_loop_all_raise World search_places get_place_details
                engine strip default_others postcode latitude longitude
                Places.JEWELRY_KEYWORDS (w1, rows, 0)) as A.
  destruct (Places.keywords_loop World search_places get_place_details engine
              strip default_others postcode latitude longitude
              Places.JEWELRY_KEYWORDS (w1, rows, 0)) as [[w2 rows2] n].
  destruct (engine w2) as [w3 [[ex2 now2] id2]].
  cbn [fst snd] in *. unfold grows in G.
  destruct G as [G1 [G2 [G3 G4]]].
  repeat split; try lia.
  - intros E. now apply G4.
  - intros H. now apply A.
Qed.


(** ** The run under any engine *)

(** [generate_clusters] is the run under [stored_order]. *)
Lemma stored_order_run (radius_km : R) (now1 now2 : Z) (t : Table) :
  generate_clusters_on stored_order radius_km now1 now2 t
  = generate_clusters radius_km now1 now2 t.
Proof. reflexivity. Qed.

Lemma stored_order_selected (within : Location -> Location -> bool) (t : Table) :
  optimized_clusters_on stored_order within t = optimized_clusters within t.
Proof. reflexivity. Qed.

Section SortPermutation.
Context {A : Type}.
Variable leb : A -> A -> bool.

Lemma insert_by_Permutation (x : A) (l : list A) :
  Permutation (insert_by leb x l) (x :: l).
Proof.
  induction l as [|h l IH]; simpl; [reflexivity|].
  destruct (leb x h); [reflexivity|].
  etransitivity; [apply perm_skip, IH|apply perm_swap].
Qed.

Lemma sort_by_Permutation (l : list A) : Permutation (sort_by leb l) l.
Proof.
  induction l as [|h l IH]; simpl; [constructor|].
  etransitivity; [apply insert_by_Permutation|now apply perm_skip].
Qed.
End SortPermutation.

Lemma stored_order_admissible : admissible stored_order.
Proof.
  repeat split; simpl; intros.
  - reflexivity.
  - apply sort_by_Permutation.
  - reflexivity.
Qed.

Lemma by_id_admissible : admissible by_id.
Proof.
  repeat split; simpl; intros.
  - apply sort_by_Permutation.
  - apply sort_by_Permutation.
  - reflexivity.
Qed.




Lemma centers_row_id (now : Z) (ocs : list OptimizedCluster) (p : Postcode) :
  id (centers_row now ocs p) = id p.
Proof. unfold centers_row. now destruct (find (centers_where p) ocs). Qed.

Lemma centers_row_cases (now : Z) (ocs : list OptimizedCluster) (p : Postcode) :
  (exists oc, In oc ocs /\ oc_center oc = id p /\
              centers_row now ocs p = centers_set now p oc) \/
  ((forall oc, In oc ocs -> oc_center oc <> id p) /\ centers_row now ocs p = p).
Proof.
  unfold centers_row. destruct (find (centers_where p) ocs) as [oc|] eqn:E.
  - left. apply find_some in E. destruct E as [H1 H2].
    apply Z.eqb_eq in H2. exists oc. auto.
  - right. split; [|reflexivity]. intros oc Hoc Ec.
    apply (find_none _ _ E) in Hoc. unfold centers_where in Hoc.
    rewrite Ec, Z.eqb_refl in Hoc. discriminate.
Qed.

Lemma geocoded_rows_count (t : Table) :
  List.length (numbered_locations t) = List.length (filter geocoded_row t).
Proof.
  induction t as [|p t IH]; [reflexivity|].
  unfold numbered_locations in *. simpl. rewrite length_app, IH.
  unfold location_of, geocoded_row.
  destruct (latitude p), (longitude p); reflexivity.
Qed.

Section EngineFacts.
Variable e : Engine.
Hypothesis e_ok : admissible e.
Variable within : Location -> Location -> bool.

Lemma group_order_In (locs : list Location) (a : Location) :
  In a (group_order e locs) <-> In a locs.
Proof.
  destruct e_ok as [H _]. split; intros Ha.
  - apply (nodup_In Location_eq_dec).
    eapply Permutation_in; [apply H|exact Ha].
  - eapply Permutation_in; [apply Permutation_sym, H|].
    now apply nodup_In.
Qed.

Lemma order_by_In (l : list OptimizedCluster) (oc : OptimizedCluster) :
  In oc (order_by e l) <-> In oc l.
Proof.
  destruct e_ok as [_ [H _]]. split; intros Hoc.
  - eapply Permutation_in; [apply H|exact Hoc].
  - eapply Permutation_in; [apply Permutation_sym, H|exact Hoc].
Qed.

Lemma potential_clusters_on_In (t : Table) (pc : PotentialCluster) :
  In pc (potential_clusters_on e within t) <->
  exists a, In a (numbered_locations t) /\
            pc = candidate within (numbered_locations t) a.
Proof.
  unfold potential_clusters_on. rewrite in_map_iff.
  split; intros [a [H1 H2]]; exists a.
  - apply (proj1 (group_order_In _ a)) in H2. auto.
  - split; [auto|]. now apply group_order_In.
Qed.

Lemma numbered_clusters_on_pc (t : Table) (oc : OptimizedCluster) :
  In oc (numbered_clusters_on e within t) ->
  In (oc_pc oc) (potential_clusters_on e within t).
Proof.
  intros H. unfold numbered_clusters_on in H.
  rewrite <- (row_number_from_pc 1 (potential_clusters_on e within t)).
  now apply in_map.
Qed.

Lemma numbered_clusters_on_of (t : Table) (pc : PotentialCluster) :
  In pc (potential_clusters_on e within t) ->
  exists oc, In oc (numbered_clusters_on e within t) /\ oc_pc oc = pc.
Proof.
  intros H. unfold numbered_clusters_on.
  rewrite <- (row_number_from_pc 1 (potential_clusters_on e within t)) in H.
  apply in_map_iff in H. destruct H as [oc [E H]]. eauto.
Qed.

Lemma numbered_clusters_on_location (t : Table) (oc : OptimizedCluster) :
  In oc (numbered_clusters_on e within t) ->
  In (oc_location oc) (numbered_locations t) /\
  oc_pc oc = candidate within (numbered_locations t) (oc_location oc).
Proof.
  intros H. apply numbered_clusters_on_pc, potential_clusters_on_In in H.
  destruct H as [a [Ha E]].
  unfold oc_location. rewrite E. simpl. now destruct a.
Qed.

Lemma numbered_clusters_on_centers (t : Table) :
  NoDup (map id t) -> NoDup (map oc_center (numbered_clusters_on e within t)).
Proof.
  intros ND. apply numbered_locations_NoDup in ND.
  unfold numbered_clusters_on, oc_center.
  rewrite <- (map_map oc_pc center_id), row_number_from_pc.
  unfold potential_clusters_on. rewrite map_map. cbn [center_id candidate].
  apply Permutation_NoDup with (l := map l_id (numbered_locations t));
    [|exact ND].
  apply Permutation_map, Permutation_sym.
  etransitivity; [apply (proj1 e_ok)|].
  rewrite nodup_fixed_point by (now apply NoDup_of_map in ND). reflexivity.
Qed.

Lemma optimized_clusters_on_In (t : Table) (oc : OptimizedCluster) :
  In oc (optimized_clusters_on e within t) ->
  In oc (numbered_clusters_on e within t).
Proof.
  intros H. apply distinct_on_In in H. now apply (proj1 (order_by_In _ oc)) in H.
Qed.

Lemma optimized_clusters_on_NoDup (t : Table) :
  NoDup (map oc_covered (optimized_clusters_on e within t)).
Proof. apply distinct_on_NoDup. Qed.

Lemma optimized_clusters_on_covers (t : Table) (oc : OptimizedCluster) :
  In oc (numbered_clusters_on e within t) ->
  exists oc', In oc' (optimized_clusters_on e within t) /\
              oc_covered oc' = oc_covered oc.
Proof.
  intros H. apply distinct_on_covers. now apply order_by_In.
Qed.


Lemma potential_clusters_on_ext (w' : Location -> Location -> bool) (t : Table) :
  (forall a b, In a (numbered_locations t) -> In b (numbered_locations t) ->
               within a b = w' a b) ->
  potential_clusters_on e within t = potential_clusters_on e w' t.
Proof.
  intros H. unfold potential_clusters_on. apply map_ext_in. intros a Ha.
  apply (proj1 (group_order_In _ a)) in Ha. unfold candidate, joined_ids.
  assert (E : filter (within a) (numbered_locations t)
              = filter (w' a) (numbered_locations t)).
  { apply filter_ext_in. intros b Hb. now apply H. }
  now rewrite E.
Qed.


Lemma members_row_on_id (now : Z) (snapshot : Table) (p : Postcode) :
  id (members_row_on e now snapshot p) = id p.
Proof.
  unfold members_row_on.
  now destruct (find (members_where p) (join_order e p snapshot)).
Qed.

Lemma members_row_on_keeps (now : Z) (snapshot : Table) (p : Postcode) :
  is_cluster_center (members_row_on e now snapshot p) = is_cluster_center p /\
  cluster_postcodes (members_row_on e now snapshot p) = cluster_postcodes p /\
  scrape_status (members_row_on e now snapshot p) = scrape_status p.
Proof.
  unfold members_row_on.
  destruct (find (members_where p) (join_order e p snapshot));
    repeat split; reflexivity.
Qed.

Lemma generate_clusters_on_rows (now1 now2 : Z) (t : Table) :
  fst (generate_clusters_on_with e within now1 now2 t)
  = map (fun p =>
           members_row_on e now2
             (map (centers_row now1
                     (optimized_clusters_on e within (reset_clusters t)))
                  (reset_clusters t))
             (centers_row now1
                (optimized_clusters_on e within (reset_clusters t))
                (reset_row p))) t.
Proof.
  unfold generate_clusters_on_with. cbv zeta. cbn [fst].
  set (ocs := optimized_clusters_on e within (reset_clusters t)).
  generalize (map (centers_row now1 ocs) (reset_clusters t)) at 1 3.
  intros t1. unfold reset_clusters. now rewrite !map_map.
Qed.

Lemma map_id_generate_on (now1 now2 : Z) (t : Table) :
  map id (fst (generate_clusters_on_with e within now1 now2 t)) = map id t.
Proof.
  rewrite generate_clusters_on_rows, map_map. apply map_ext. intros p.
  now rewrite members_row_on_id, centers_row_id, id_reset_row.
Qed.

Section Selected.
Variable t : Table.
Hypothesis ids_unique : NoDup (map id t).

Lemma selected_centers_inj (oc oc' : OptimizedCluster) :
  In oc (optimized_clusters_on e within (reset_clusters t)) ->
  In oc' (optimized_clusters_on e within (reset_clusters t)) ->
  oc_center oc = oc_center oc' -> oc = oc'.
Proof.
  intros H H' E.
  apply (NoDup_map_inj oc_center
           (numbered_clusters_on e within (reset_clusters t))); auto.
  - apply numbered_clusters_on_centers. now rewrite map_id_reset.
  - now apply optimized_clusters_on_In.
  - now apply optimized_clusters_on_In.
Qed.

(** The row a selected cluster is centred on. *)
Lemma selected_center_row (oc : OptimizedCluster) :
  In oc (optimized_clusters_on e within (reset_clusters t)) ->
  exists p, In p t /\ id p = oc_center oc.
Proof.
  intros Hoc.
  destruct (numbered_clusters_on_location (reset_clusters t) oc
              (optimized_clusters_on_In _ oc Hoc)) as [Hloc _].
  rewrite numbered_locations_reset in Hloc.
  apply numbered_locations_In in Hloc.
  destruct Hloc as [p [Hp [_ [_ [Eid _]]]]].
  exists p. split; [exact Hp|exact Eid].
Qed.

End Selected.
End EngineFacts.


Lemma meridian_optimized_on (e : Engine) (t : Table) :
  admissible e -> meridian_ok (numbered_locations t) = true ->
  optimized_clusters_on e (within_radius 5) (reset_clusters t)
  = optimized_clusters_on e near5 (reset_clusters t).
Proof.
  intros He H. unfold optimized_clusters_on, numbered_clusters_on.
  rewrite (potential_clusters_on_ext e He (within_radius 5) near5);
    [reflexivity|].
  rewrite numbered_locations_reset. intros a b. now apply meridian_ok_agree.
Qed.








(** X5 -- Cluster ids: in whatever order the engine numbers and sorts
    the candidates, every selected cluster has a cluster_id between 1 and
    the number of rows with coordinates, and two selected clusters with
    the same cluster_id are the same cluster. *)
Theorem cluster_ids_range (e : Engine) (radius_km : R) (t : Table)
        (oc oc' : OptimizedCluster) :
  admissible e ->
  In oc (optimized_clusters_on e (within_radius radius_km) (reset_clusters t)) ->
  In oc' (optimized_clusters_on e (within_radius radius_km) (reset_clusters t)) ->
  1 <= oc_cluster_id oc <= Z.of_nat (List.length (filter geocoded_row t)) /\
  (oc_cluster_id oc = oc_cluster_id oc' -> oc = oc').
Proof.
  intros He H H'. set (w := within_radius radius_km) in *.
  apply (optimized_clusters_on_In e He) in H, H'.
  split.
  - unfold numbered_clusters_on in H.
    split; [now apply row_number_from_ge in H|].
    apply row_number_from_lt in H.
    unfold potential_clusters_on in H. rewrite length_map in H.
    rewrite numbered_locations_reset in H.
    rewrite (Permutation_length (proj1 He (numbered_locations t))) in H.
    pose proof (nodup_length_le Location_eq_dec (numbered_locations t)) as L.
    rewrite geocoded_rows_count in L. lia.
  - intros E.
    apply (NoDup_map_inj oc_cluster_id
             (numbered_clusters_on e w (reset_clusters t))); auto.
    apply row_number_from_NoDup.
Qed.

Lemma swapped_table_selected :
  In swapped_selected
     (optimized_clusters_on by_id (within_radius 5) (reset_clusters swapped_table)).
Proof.
  rewrite (meridian_optimized_on by_id swapped_table by_id_admissible eq_refl).
  left; reflexivity.
Qed.

Lemma cluster_ids_range_witness :
  (admissible by_id /\
   In swapped_selected
      (optimized_clusters_on by_id (within_radius 5)
                             (reset_clusters swapped_table))) /\
  1 <= oc_cluster_id swapped_selected
    <= Z.of_nat (List.length (filter geocoded_row swapped_table)).
Proof.
  split; [split; [exact by_id_admissible|exact swapped_table_selected]|].
  exact (proj1 (cluster_ids_range by_id 5 swapped_table swapped_selected
                  swapped_selected by_id_admissible
                  swapped_table_selected swapped_table_selected)).
Defined.

(** X22 -- The center rows: with unique ids, in whatever order the
    engine works, for every selected cluster the table ends the run with
    exactly one row of the center's id; that row is marked
    is_cluster_center = TRUE, holds the cluster's covered array in
    cluster_postcodes, and has scrape_status 'pending'. *)
Theorem center_rows (e : Engine) (radius_km : R) (now1 now2 : Z) (t : Table)
        (oc : OptimizedCluster) :
  admissible e ->
  NoDup (map id t) ->
  In oc (optimized_clusters_on e (within_radius radius_km) (reset_clusters t)) ->
  exists q,
    In q (fst (generate_clusters_on e radius_km now1 now2 t)) /\
    id q = oc_center oc /\
    (forall q', In q' (fst (generate_clusters_on e radius_km now1 now2 t)) ->
                id q' = oc_center oc -> q' = q) /\
    is_cluster_center q = Some true /\
    cluster_postcodes q = Some (oc_covered oc) /\
    scrape_status q = Some "pending"%string.
Proof.
  intros He ND Hoc. set (w := within_radius radius_km) in *.
  destruct (selected_center_row e He w t oc Hoc) as [p [Hp Eid]].
  set (ocs := optimized_clusters_on e w (reset_clusters t)) in *.
  set (t1 := map (centers_row now1 ocs) (reset_clusters t)).
  exists (members_row_on e now2 t1 (centers_row now1 ocs (reset_row p))).
  assert (Hin : In (members_row_on e now2 t1 (centers_row now1 ocs (reset_row p)))
                   (fst (generate_clusters_on e radius_km now1 now2 t))).
  { unfold generate_clusters_on. rewrite generate_clusters_on_rows.
    apply in_map_iff. exists p. split; [reflexivity|assumption]. }
  assert (Hid : id (members_row_on e now2 t1 (centers_row now1 ocs (reset_row p)))
                = oc_center oc).
  { now rewrite members_row_on_id, centers_row_id, id_reset_row. }
  split; [exact Hin|]. split; [exact Hid|]. split.
  - intros q' Hq' E.
    apply (NoDup_map_inj id (fst (generate_clusters_on e radius_km now1 now2 t)));
      auto.
    + unfold generate_clusters_on. now rewrite map_id_generate_on.
    + congruence.
  - destruct (members_row_on_keeps e now2 t1 (centers_row now1 ocs (reset_row p)))
      as [-> [-> ->]].
    destruct (centers_row_cases now1 ocs (reset_row p))
      as [[oc' [H1 [H2 E]]]|[Hno _]].
    + rewrite E.
      assert (oc' = oc) as ->.
      { apply (selected_centers_inj e He w t ND); auto.
        rewrite H2, id_reset_row. now symmetry. }
      simpl. repeat split; reflexivity.
    + exfalso. apply (Hno oc Hoc). rewrite id_reset_row. now symmetry.
Qed.

Lemma center_rows_witness :
  (admissible by_id /\ NoDup (map id swapped_table) /\
   In swapped_selected
      (optimized_clusters_on by_id (within_radius 5)
                             (reset_clusters swapped_table))) /\
  exists q,
    In q (fst (generate_clusters_on by_id 5 10 20 swapped_table)) /\
    id q = 1 /\ cluster_postcodes q = Some [Some 1; Some 2].
Proof.
  split; [split; [exact by_id_admissible|
                  split; [exact swapped_table_ids|exact swapped_table_selected]]|].
  destruct (center_rows by_id 5 10 20 swapped_table swapped_selected
              by_id_admissible swapped_table_ids swapped_table_selected)
    as [q [Hq [Hid [_ [_ [Hcp _]]]]]].
  exists q. repeat split; assumption.
Defined.

Lemma meridian_potential_on (e : Engine) (t : Table) :
  admissible e -> meridian_ok (numbered_locations t) = true ->
  potential_clusters_on e (within_radius 5) (reset_clusters t)
  = potential_clusters_on e near5 (reset_clusters t).
Proof.
  intros He H. apply (potential_clusters_on_ext e He).
  rewrite numbered_locations_reset. intros a b. now apply meridian_ok_agree.
Qed.

(** X25 -- The representative of a covered array: in whatever order the
    engine works, a candidate's coverage_count is the number of ids in
    its covered array, so the candidates that share an array share the
    count and ORDER BY coverage_count DESC never chooses among them; and
    exactly one selected cluster has that array, centred on one of those
    candidates. *)
Theorem signature_representative (e : Engine) (radius_km : R) (t : Table)
        (pc : PotentialCluster) :
  admissible e ->
  In pc (potential_clusters_on e (within_radius radius_km) (reset_clusters t)) ->
  coverage_count pc = non_null_count (covered_postcodes pc) /\
  exists oc,
    In oc (optimized_clusters_on e (within_radius radius_km) (reset_clusters t)) /\
    In (oc_pc oc)
       (potential_clusters_on e (within_radius radius_km) (reset_clusters t)) /\
    oc_covered oc = covered_postcodes pc /\
    coverage_count (oc_pc oc) = coverage_count pc /\
    (forall oc',
       In oc' (optimized_clusters_on e (within_radius radius_km)
                                     (reset_clusters t)) ->
       oc_covered oc' = covered_postcodes pc -> oc' = oc).
Proof.
  intros He Hpc. set (w := within_radius radius_km) in *.
  assert (Hcount : forall pc', In pc' (potential_clusters_on e w (reset_clusters t)) ->
                     coverage_count pc' = non_null_count (covered_postcodes pc')).
  { intros pc' H. apply (potential_clusters_on_In e He) in H.
    destruct H as [a [_ ->]]. apply candidate_count. }
  split; [now apply Hcount|].
  destruct (numbered_clusters_on_of e w (reset_clusters t) pc Hpc)
    as [oc0 [Hoc0 Epc]].
  destruct (optimized_clusters_on_covers e He w (reset_clusters t) oc0 Hoc0)
    as [oc [Hoc Ek]].
  assert (Ecov : oc_covered oc = covered_postcodes pc).
  { rewrite Ek. unfold oc_covered. now rewrite Epc. }
  assert (Hin : In (oc_pc oc) (potential_clusters_on e w (reset_clusters t))).
  { apply numbered_clusters_on_pc. now apply optimized_clusters_on_In. }
  exists oc. split; [exact Hoc|]. split; [exact Hin|]. split; [exact Ecov|].
  split.
  - rewrite (Hcount _ Hin), (Hcount _ Hpc). fold (oc_covered oc).
    now rewrite Ecov.
  - intros oc' Hoc' E'.
    apply (NoDup_map_inj oc_covered (optimized_clusters_on e w (reset_clusters t)));
      auto.
    + apply optimized_clusters_on_NoDup.
    + congruence.
Qed.

Lemma signature_representative_witness :
  (admissible by_id /\
   In (mkPotentialCluster 2 None 0 0 [Some 1; Some 2] 2)
      (potential_clusters_on by_id (within_radius 5)
                             (reset_clusters swapped_table))) /\
  exists oc,
    In oc (optimized_clusters_on by_id (within_radius 5)
                                 (reset_clusters swapped_table)) /\
    oc_covered oc = [Some 1; Some 2] /\
    coverage_count (oc_pc oc) = 2.
Proof.
  assert (H : In (mkPotentialCluster 2 None 0 0 [Some 1; Some 2] 2)
                 (potential_clusters_on by_id (within_radius 5)
                                        (reset_clusters swapped_table))).
  { rewrite (meridian_potential_on by_id swapped_table by_id_admissible eq_refl).
    right; left; reflexivity. }
  split; [split; [exact by_id_admissible|exact H]|].
  destruct (proj2 (signature_representative by_id 5 swapped_table _
                     by_id_admissible H))
    as [oc [H1 [_ [H3 [H4 _]]]]].
  exists oc. repeat split; assumption.
Defined.

(** ** The parts of an address *)

(** X23 -- Reading a part of the address: first_component returns the
    long_name of the first entry whose types hold the tag and does not
    read the entries after it (a malformed entry there does no harm);
    it returns the empty string when no entry holds the tag; and it
    raises when an entry before the first match has no 'types'. *)
Theorem first_component_first_match (tag : string)
        (before after : list Listings.Component) (comp : Listings.Component)
        (ts : list string) :
  (forall c, In c before ->
     exists ts', Listings.types c = Some ts' /\
                 existsb (String.eqb tag) ts' = false) ->
  (Listings.types comp = Some ts -> existsb (String.eqb tag) ts = true ->
   Listings.first_component tag (before ++ comp :: after)
   = Listings.required (Listings.long_name comp)) /\
  (Listings.types comp = None ->
   Listings.first_component tag (before ++ comp :: after) = Raised) /\
  Listings.first_component tag before = Returned ""%string.
Proof.
  intros Hb. induction before as [|c before IH]; simpl.
  - repeat split.
    + intros -> ->. now destruct (Listings.long_name comp).
    + intros ->. reflexivity.
  - destruct (Hb c (or_introl eq_refl)) as [ts' [-> ->]].
    apply IH. intros c' Hc'. apply Hb. now right.
Qed.

Lemma first_component_first_match_witness :
  Listings.first_component "route"%string
    ([Listings.mkComponent (Some "1"%string) (Some ["street_number"%string])]
     ++ Listings.mkComponent (Some "High St"%string) (Some ["route"%string])
     :: [Listings.mkComponent None None])
  = Returned "High St"%string.
Proof.
  refine (proj1 (first_component_first_match "route"%string
                   [Listings.mkComponent (Some "1"%string)
                      (Some ["street_number"%string])]
                   [Listings.mkComponent None None]
                   (Listings.mkComponent (Some "High St"%string)
                      (Some ["route"%string]))
                   ["route"%string] _) eq_refl eq_refl).
  intros c [<-|[]]. exists ["street_number"%string]. split; reflexivity.
Defined.

